(** * Orders table: the load lifecycle and the filter / sort / sum pipeline

    A shallow embedding of [src/codeReview/code-review-exercise-1.tsx]:
    the [useOrders] hook (orders, loading flag, error message, [fetchOrders],
    the effect keyed on [orders.length]) and the [OrdersTable] component
    (search, status and minimum-total criteria, the memoised
    [filteredOrders] and [totalRevenue]).

    Conventions.
    - A JavaScript [number] is an IEEE 754 binary64 value: Rocq's primitive
      [float].  The identifier of an order is integer-valued and is a [Z].
    - A JavaScript string is a [string]; comparison is lexicographic on the
      character codes, as [>] on strings is.
    - [Number] applied to a string and [String.prototype.toLowerCase] are
      functions of the runtime and not code of the program: they are the
      two fields of a parameter, [rt : Runtime].  Nothing is assumed of
      them except where a statement says so ([lowers_ascii]).
    - The state updates made by the callbacks of one task are applied
      together and one render follows, as React does under automatic
      batching (a root made with [createRoot]); see [handle].
    - [Array.prototype.sort] is given by the language only up to the calls
      it makes to the comparator; it is modelled by a stable insertion sort
      that puts [x] in front of [y] when [comparefn x y < 0], which is the
      test the engines' insertion and merge steps make. *)

From Stdlib Require Import List String Ascii Bool ZArith Lia.
From Stdlib Require Import Sorted Permutation.
From Stdlib Require Import Floats.
Import ListNotations.

Set Implicit Arguments.

Local Open Scope string_scope.
Local Open Scope list_scope.

(** ** Strings *)

Module JsString.

(** A text of the ASCII range: every character is below 128. *)
Fixpoint ascii_text (s : string) : bool :=
  match s with
  | EmptyString => true
  | String c r => (nat_of_ascii c <? 128)%nat && ascii_text r
  end.

(** What lower-casing does to an ASCII text: the letters A to Z become a
    to z and nothing else changes.  [toLowerCase] itself is the runtime's
    (see [Runtime]); on other text it is not described here. *)
Definition lower_ascii (c : ascii) : ascii :=
  let n := nat_of_ascii c in
  if (65 <=? n)%nat && (n <=? 90)%nat then ascii_of_nat (n + 32) else c.

Fixpoint lowerAZ (s : string) : string :=
  match s with
  | EmptyString => EmptyString
  | String c r => String (lower_ascii c) (lowerAZ r)
  end.

(** [s.includes(t)]: [t] occurs in [s] at some position. *)
Fixpoint includes (s t : string) : bool :=
  prefix t s ||
  match s with
  | EmptyString => false
  | String _ r => includes r t
  end.

(** [s > t] on strings. *)
Definition gt (s t : string) : bool := String.ltb t s.

(** A string is truthy when it is not empty. *)
Definition truthy (s : string) : bool :=
  match s with EmptyString => false | String _ _ => true end.

End JsString.

(** ** Numbers *)

Module JsNumber.

Definition number := float.

(** A number is truthy unless it is [0], [-0] or [NaN]. *)
Definition truthy (x : number) : bool :=
  negb (PrimFloat.eqb x 0%float) && negb (PrimFloat.is_nan x).

Definition lt (x y : number) : bool := PrimFloat.ltb x y.
Definition ge (x y : number) : bool := PrimFloat.leb y x.
Definition isNaN (x : number) : bool := PrimFloat.is_nan x.

End JsNumber.

Import JsNumber.

(** ** The runtime

    The two library functions the program calls on text: [Number] on a
    string, and [String.prototype.toLowerCase]. *)

Record Runtime := mkRuntime {
  StringToNumber : string -> number;
  toLowerCase : string -> string
}.

(** ** Arrays *)

Module JsArray.
Section Ops.
Variable A : Type.

(** [xs.sort(comparefn)]: elements are taken from left to right and
    each is put in front of the first one it compares below. *)
Fixpoint insert_by (comparefn : A -> A -> Z) (x : A) (l : list A) : list A :=
  match l with
  | [] => [x]
  | y :: r =>
      if (comparefn x y <? 0)%Z then x :: y :: r
      else y :: insert_by comparefn x r
  end.

Definition sort (comparefn : A -> A -> Z) (l : list A) : list A :=
  fold_left (fun acc x => insert_by comparefn x acc) l [].

(** [xs.reduce(f, init)]. *)
Definition reduce (B : Type) (f : B -> A -> B) (init : B) (l : list A) : B :=
  fold_left f l init.
End Ops.
End JsArray.

(** ** The data model *)

Inductive OrderStatus := pending | paid | shipped | cancelled.

Definition OrderStatus_eqb (a b : OrderStatus) : bool :=
  match a, b with
  | pending, pending | paid, paid | shipped, shipped
  | cancelled, cancelled => true
  | _, _ => false
  end.

Record Order := mkOrder {
  id : Z;
  customerName : string;
  total : number;
  status : OrderStatus;
  createdAt : string
}.

(** The status filter: ["all"] or one status. *)
Inductive StatusFilter := all | only (s : OrderStatus).

(** The minimum-total state has type [number | string]. *)
Inductive NumberOrString := Num (x : number) | Str (s : string).

Definition truthy_ns (v : NumberOrString) : bool :=
  match v with
  | Num x => JsNumber.truthy x
  | Str s => JsString.truthy s
  end.

(** ** The query pipeline of [OrdersTable] *)

Section Query.

Variable rt : Runtime.

Definition Number (v : NumberOrString) : number :=
  match v with
  | Num x => x
  | Str s => StringToNumber rt s
  end.

(** The callback given to [orders.filter].  [order.total] is a number, on
    which [Number] is the identity. *)
Definition keep (search : option string) (statusFilter : StatusFilter)
           (minTotal : NumberOrString) (order : Order) : bool :=
  if match search with
     | Some s =>
         JsString.truthy s &&
         negb (JsString.includes (toLowerCase rt (customerName order))
                                 (toLowerCase rt s))
     | None => false
     end
  then false
  else if match statusFilter with
          | all => false
          | only st => negb (OrderStatus_eqb (status order) st)
          end
  then false
  else if truthy_ns minTotal && JsNumber.lt (total order) (Number minTotal)
  then false
  else true.

(** The callback given to [sort]: newest first. *)
Definition comparator (a b : Order) : Z :=
  if JsString.gt (createdAt a) (createdAt b) then (-1)%Z else 1%Z.

(** The body of the [filteredOrders] memo. *)
Definition filteredOrders (orders : list Order) (search : option string)
           (statusFilter : StatusFilter) (minTotal : NumberOrString)
  : list Order :=
  JsArray.sort comparator (filter (keep search statusFilter minTotal) orders).

(** The body of the [totalRevenue] memo. *)
Definition totalRevenue (filtered : list Order) : number :=
  JsArray.reduce (fun sum order => PrimFloat.add sum (total order))
                 0%float filtered.

End Query.

(** ** Promises

    A promise that has settled is fulfilled with a value or rejected with a
    reason.  A callback runs on the state [S] of the program and either
    returns or throws; [then_], [catch_] and [finally_] are the three
    methods of a promise, applied once the promise has settled. *)

Module Promise.

Inductive Settled (A : Type) :=
| Fulfilled (value : A)
| Rejected (reason : string).

Arguments Rejected {A} reason.

Definition Callback (S A : Type) := S -> Settled A * S.

Definition bind {S A B : Type} (m : Callback S A) (k : A -> Callback S B)
  : Callback S B :=
  fun s =>
    match m s with
    | (Fulfilled a, s') => k a s'
    | (Rejected e, s') => (Rejected e, s')
    end.

Definition then_ {S A B : Type} (p : Settled A) (onFulfilled : A -> Callback S B)
  : Callback S B :=
  fun s =>
    match p with
    | Fulfilled a => onFulfilled a s
    | Rejected e => (Rejected e, s)
    end.

Definition catch_ {S A : Type} (p : Settled A) (onRejected : string -> Callback S A)
  : Callback S A :=
  fun s =>
    match p with
    | Fulfilled a => (Fulfilled a, s)
    | Rejected e => onRejected e s
    end.

Definition finally_ {S A : Type} (p : Settled A) (onFinally : Callback S unit)
  : Callback S A :=
  fun s =>
    match onFinally s with
    | (Fulfilled _, s') => (p, s')
    | (Rejected e, s') => (Rejected e, s')
    end.

End Promise.

Import Promise.

Notation "m ;; k" := (Promise.bind m (fun _ => k))
  (at level 61, right associativity).

(** ** The component

    An array held in state is an object: [ref] is its identity, which is
    what the dependency lists of [useMemo] compare. *)

Record Arr := mkArr { ref : nat; elems : list Order }.

(** The response of the order source: [json()] gives the parsed orders or
    rejects. *)
Record Response := mkResponse { json : Settled (list Order) }.

Record State := mkState {
  (* useOrders *)
  orders : Arr;
  loading : bool;
  error : option string;
  (* OrdersTable; search is string | undefined *)
  search : option string;
  statusFilter : StatusFilter;
  minTotal : NumberOrString;
  (* what React keeps for the hooks: the dependencies the effect last ran
     with, and the two memos with the identity they were computed for *)
  effectDeps : option nat;
  memoFiltered : option (nat * Arr);
  memoRevenue : option (nat * number);
  (* the environment: objects allocated, requests sent to "/api/orders",
     requests not yet settled, what console.error received *)
  nextRef : nat;
  issued : nat;
  inflight : list nat;
  console : list string
}.

Definition failedMessage : string := "Failed to load orders".

Definition initial : State :=
  {| orders := mkArr 0 []; loading := false; error := None;
     search := None; statusFilter := all; minTotal := Str "";
     effectDeps := None; memoFiltered := None; memoRevenue := None;
     nextRef := 1; issued := 0; inflight := []; console := [] |}.

(** The state setters and the two effects on the environment.  The array
    given to [setOrders] is the one [json()] has just built: a new
    object. *)

Definition setOrders (data : list Order) : Callback State unit :=
  fun s =>
    (Fulfilled tt,
     {| orders := mkArr (nextRef s) data; loading := loading s; error := error s;
        search := search s; statusFilter := statusFilter s; minTotal := minTotal s;
        effectDeps := effectDeps s; memoFiltered := memoFiltered s;
        memoRevenue := memoRevenue s;
        nextRef := S (nextRef s); issued := issued s; inflight := inflight s;
        console := console s |}).

Definition setLoading (b : bool) : Callback State unit :=
  fun s =>
    (Fulfilled tt,
     {| orders := orders s; loading := b; error := error s;
        search := search s; statusFilter := statusFilter s; minTotal := minTotal s;
        effectDeps := effectDeps s; memoFiltered := memoFiltered s;
        memoRevenue := memoRevenue s;
        nextRef := nextRef s; issued := issued s; inflight := inflight s;
        console := console s |}).

Definition setError (e : option string) : Callback State unit :=
  fun s =>
    (Fulfilled tt,
     {| orders := orders s; loading := loading s; error := e;
        search := search s; statusFilter := statusFilter s; minTotal := minTotal s;
        effectDeps := effectDeps s; memoFiltered := memoFiltered s;
        memoRevenue := memoRevenue s;
        nextRef := nextRef s; issued := issued s; inflight := inflight s;
        console := console s |}).

Definition setSearch (v : option string) (s : State) : State :=
  {| orders := orders s; loading := loading s; error := error s;
     search := v; statusFilter := statusFilter s; minTotal := minTotal s;
     effectDeps := effectDeps s; memoFiltered := memoFiltered s;
     memoRevenue := memoRevenue s;
     nextRef := nextRef s; issued := issued s; inflight := inflight s;
     console := console s |}.

Definition setStatusFilter (v : StatusFilter) (s : State) : State :=
  {| orders := orders s; loading := loading s; error := error s;
     search := search s; statusFilter := v; minTotal := minTotal s;
     effectDeps := effectDeps s; memoFiltered := memoFiltered s;
     memoRevenue := memoRevenue s;
     nextRef := nextRef s; issued := issued s; inflight := inflight s;
     console := console s |}.

Definition setMinTotal (v : NumberOrString) (s : State) : State :=
  {| orders := orders s; loading := loading s; error := error s;
     search := search s; statusFilter := statusFilter s; minTotal := v;
     effectDeps := effectDeps s; memoFiltered := memoFiltered s;
     memoRevenue := memoRevenue s;
     nextRef := nextRef s; issued := issued s; inflight := inflight s;
     console := console s |}.

Definition console_error (err : string) : Callback State unit :=
  fun s =>
    (Fulfilled tt,
     {| orders := orders s; loading := loading s; error := error s;
        search := search s; statusFilter := statusFilter s; minTotal := minTotal s;
        effectDeps := effectDeps s; memoFiltered := memoFiltered s;
        memoRevenue := memoRevenue s;
        nextRef := nextRef s; issued := issued s; inflight := inflight s;
        console := console s ++ [err] |}).

(** [fetch("/api/orders")]: one more request, numbered by its rank. *)
Definition fetch (s : State) : State :=
  {| orders := orders s; loading := loading s; error := error s;
     search := search s; statusFilter := statusFilter s; minTotal := minTotal s;
     effectDeps := effectDeps s; memoFiltered := memoFiltered s;
     memoRevenue := memoRevenue s;
     nextRef := nextRef s; issued := S (issued s);
     inflight := inflight s ++ [issued s];
     console := console s |}.

(** The request [r] has settled. *)
Definition settled (r : nat) (s : State) : State :=
  {| orders := orders s; loading := loading s; error := error s;
     search := search s; statusFilter := statusFilter s; minTotal := minTotal s;
     effectDeps := effectDeps s; memoFiltered := memoFiltered s;
     memoRevenue := memoRevenue s;
     nextRef := nextRef s; issued := issued s;
     inflight := remove Nat.eq_dec r (inflight s);
     console := console s |}.

(** *** [useOrders] *)

(** [fetchOrders], up to the point where the request is sent. *)
Definition fetchOrders (s : State) : State :=
  fetch (snd (setLoading true s)).

(** The rest of [fetchOrders]: the chain of callbacks on the promise that
    [fetch] returned, run when it settles with [res]. *)
Definition fetchOrders_settle (res : Settled Response) : Callback State unit :=
  fun s0 =>
    let '(p1, s1) := then_ res (fun res s => (json res, s)) s0 in
    let '(p2, s2) :=
      then_ p1 (fun data => setOrders data ;; setError None) s1 in
    let '(p3, s3) :=
      catch_ p2 (fun err => console_error err ;; setError (Some failedMessage)) s2 in
    finally_ p3 (setLoading false) s3.

Definition refresh (s : State) : State := fetchOrders s.

(** The effect with dependencies [[orders.length]]: it runs after the first
    render and after every render in which the length differs from the one
    it last ran with. *)
Definition useEffect_fetch (s : State) : State :=
  let n := List.length (elems (orders s)) in
  let run :=
    fetchOrders
      {| orders := orders s; loading := loading s; error := error s;
         search := search s; statusFilter := statusFilter s;
         minTotal := minTotal s;
         effectDeps := Some n; memoFiltered := memoFiltered s;
         memoRevenue := memoRevenue s;
         nextRef := nextRef s; issued := issued s; inflight := inflight s;
         console := console s |} in
  match effectDeps s with
  | None => run
  | Some m => if Nat.eqb m n then s else run
  end.

(** *** [OrdersTable] *)

Section Component.

Variable rt : Runtime.

(** [useMemo(..., [orders])]: the filtered and sorted array is computed
    again only when [orders] is another object than at the last
    computation. *)
Definition useMemo_filteredOrders (s : State) : Arr * State :=
  let value :=
    mkArr (nextRef s)
          (filteredOrders rt (elems (orders s))
                          (search s) (statusFilter s) (minTotal s)) in
  let computed :=
    (value,
     {| orders := orders s; loading := loading s; error := error s;
        search := search s; statusFilter := statusFilter s;
        minTotal := minTotal s;
        effectDeps := effectDeps s;
        memoFiltered := Some (ref (orders s), value);
        memoRevenue := memoRevenue s;
        nextRef := S (nextRef s); issued := issued s; inflight := inflight s;
        console := console s |}) in
  match memoFiltered s with
  | Some (dep, kept) => if Nat.eqb dep (ref (orders s)) then (kept, s) else computed
  | None => computed
  end.

(** [useMemo(..., [filteredOrders])]. *)
Definition useMemo_totalRevenue (filtered : Arr) (s : State) : number * State :=
  let value := totalRevenue (elems filtered) in
  let computed :=
    (value,
     {| orders := orders s; loading := loading s; error := error s;
        search := search s; statusFilter := statusFilter s;
        minTotal := minTotal s;
        effectDeps := effectDeps s;
        memoFiltered := memoFiltered s;
        memoRevenue := Some (ref filtered, value);
        nextRef := nextRef s; issued := issued s; inflight := inflight s;
        console := console s |}) in
  match memoRevenue s with
  | Some (dep, kept) => if Nat.eqb dep (ref filtered) then (kept, s) else computed
  | None => computed
  end.

(** What one render shows: the rows and the revenue of the summary. *)
Record View := mkView { visibleOrders : list Order; shownRevenue : number }.

Definition render (s : State) : View * State :=
  let '(filtered, s1) := useMemo_filteredOrders s in
  let '(revenue, s2) := useMemo_totalRevenue filtered s1 in
  (mkView (elems filtered) revenue, s2).

(** A render followed by its effects.  The effect's [setLoading(true)]
    asks for one more render, which finds every dependency as it left
    it (see [rerender_idempotent]). *)
Definition rerender (s : State) : State :=
  useEffect_fetch (snd (render s)).

(** What is on screen in a state: the result of rendering it. *)
Definition view (s : State) : View := fst (render s).

Definition handleMinTotalChange (value : string) (s : State) : State :=
  if String.eqb value "" then setMinTotal (Str "") s
  else if negb (JsNumber.isNaN (StringToNumber rt value))
       then setMinTotal (Str value) s
       else s.

(** What can happen to the component: it is mounted; [refresh] is
    called; the request [request] settles; one of the three inputs
    changes.  [Refresh] is a call of the function the hook returns: the
    hook allows it at any time, the button of the table makes it only
    while [loading] is false. *)
Inductive Event :=
| Mount
| Refresh
| Settle (request : nat) (res : Settled Response)
| ChangeSearch (value : string)
| ChangeStatus (value : StatusFilter)
| ChangeMinTotal (value : string).

Definition mounted (s : State) : bool :=
  match effectDeps s with Some _ => true | None => false end.

Definition awaiting (r : nat) (s : State) : bool :=
  existsb (Nat.eqb r) (inflight s).

(** The callbacks an event runs, before the render that follows.  The
    callbacks of one event run to completion, their state updates are
    applied together, and one render follows: this is React's automatic
    batching (React 18 and later, a root made with [createRoot]).  The
    source names no version of React.  Under a legacy root a render, and
    with it the effect, can take place between the callback of [then] and
    that of [finally], and [loading] can then be false while the request
    sent by the effect is pending: what is stated of [loading] after such
    an effect, and of the Refresh button, is stated of batched roots. *)
Definition handle (e : Event) (s : State) : option State :=
  match e with
  | Mount => if mounted s then None else Some s
  | Refresh => if mounted s then Some (refresh s) else None
  | Settle r res =>
      if mounted s && awaiting r s
      then Some (snd (fetchOrders_settle res (settled r s)))
      else None
  | ChangeSearch v => if mounted s then Some (setSearch (Some v) s) else None
  | ChangeStatus v => if mounted s then Some (setStatusFilter v s) else None
  | ChangeMinTotal v => if mounted s then Some (handleMinTotalChange v s) else None
  end.

Definition step (e : Event) (s : State) : option State :=
  match handle e s with
  | Some s' => Some (rerender s')
  | None => None
  end.

Fixpoint run (es : list Event) (s : State) : option State :=
  match es with
  | [] => Some s
  | e :: r =>
      match step e s with
      | Some s' => run r s'
      | None => None
      end
  end.

Definition reachable (s : State) : Prop :=
  exists es, run es initial = Some s.

(** An event asks for a load when it is the mount, a call of [refresh],
    or the arrival of orders whose number differs from the current one. *)
Definition loads (e : Event) (s : State) : bool :=
  match e with
  | Mount | Refresh => true
  | Settle _ (Fulfilled (mkResponse (Fulfilled data))) =>
      negb (Nat.eqb (List.length data) (List.length (elems (orders s))))
  | _ => false
  end.

End Component.

(** ** The order of timestamps and the words of the filter rule *)

(** [a] is not older than [b]: [createdAt b <= createdAt a]. *)
Definition newer_or_same (a b : Order) : Prop :=
  String.leb (createdAt b) (createdAt a) = true.

(** [t] occurs in [s]. *)
Definition substring_of (t s : string) : Prop :=
  exists pre post : string, s = (pre ++ t ++ post)%string.

(** Two characters are the same letter in either case: equal, or one of
    A to Z (65 to 90) and the other 32 above it (a to z). *)
Definition same_letter (c d : ascii) : Prop :=
  let n := nat_of_ascii c in
  let m := nat_of_ascii d in
  n = m \/ (65 <= n <= 90 /\ m = n + 32) \/ (65 <= m <= 90 /\ n = m + 32).

(** Two texts are the same up to the case of their letters. *)
Fixpoint same_ignoring_case (s t : string) : Prop :=
  match s, t with
  | EmptyString, EmptyString => True
  | String c s', String d t' => same_letter c d /\ same_ignoring_case s' t'
  | _, _ => False
  end.

(** [t] occurs in [s] up to the case of the letters. *)
Definition occurs_ignoring_case (t s : string) : Prop :=
  exists pre mid post : string,
    s = (pre ++ mid ++ post)%string /\ same_ignoring_case t mid.

(** What is assumed of the runtime's [toLowerCase]: on an ASCII text it
    turns A to Z into a to z and leaves the rest. *)
Definition lowers_ascii (rt : Runtime) : Prop :=
  forall s, JsString.ascii_text s = true -> toLowerCase rt s = JsString.lowerAZ s.

Section FilterRule.

Variable rt : Runtime.

(** The search text occurs in the name whatever the case of the letters.
    For ASCII texts this is said letter by letter, with no lower-casing:
    some part of the name has the letters of the search text, each in
    either case.  For other texts the case of a letter is what the
    runtime's [toLowerCase] makes of it. *)
Definition matches_ignoring_case (s name : string) : Prop :=
  if JsString.ascii_text s && JsString.ascii_text name
  then occurs_ignoring_case s name
  else substring_of (toLowerCase rt s) (toLowerCase rt name).

(** The three predicates of the filter rule, as they are worded: a
    criterion that is absent lets every order pass. *)
Definition passes_search (search : option string) (o : Order) : Prop :=
  forall s, search = Some s -> s <> "" ->
    matches_ignoring_case s (customerName o).

Definition passes_status (f : StatusFilter) (o : Order) : Prop :=
  forall st, f = only st -> status o = st.

(** The minimum is set: a number other than zero, or a text that is not
    empty. *)
Definition minTotal_given (m : NumberOrString) : Prop :=
  match m with
  | Num x => PrimFloat.eqb x 0%float = false
  | Str s => s <> ""
  end.

Definition passes_minTotal (m : NumberOrString) (o : Order) : Prop :=
  minTotal_given m -> JsNumber.ge (total o) (Number rt m) = true.

Definition passes (search : option string) (f : StatusFilter)
           (m : NumberOrString) (o : Order) : Prop :=
  passes_search search o /\ passes_status f o /\ passes_minTotal m o.

End FilterRule.

(** ** Sample data *)

Module Sample.

Definition alice : Order :=
  mkOrder 1 "Alice" 10%float paid "2024-01-01T00:00:00Z".
Definition bob : Order :=
  mkOrder 2 "Bob" 20%float pending "2024-01-02T00:00:00Z".
(** Created at the same instant as [alice]. *)
Definition carol : Order :=
  mkOrder 3 "Carol" 5%float shipped "2024-01-01T00:00:00Z".

Definition ok (data : list Order) : Settled Response :=
  Fulfilled (mkResponse (Fulfilled data)).

(** [StringToNumber] on the strings of decimal digits (at most fifteen,
    so that the value is exact); the samples convert no other string. *)
Fixpoint digits (s : string) (acc : Z) : option Z :=
  match s with
  | EmptyString => Some acc
  | String c r =>
      let n := Z.of_nat (nat_of_ascii c) in
      if ((48 <=? n) && (n <=? 57))%Z then digits r (10 * acc + (n - 48))%Z
      else None
  end.

Definition digitsToNumber (s : string) : number :=
  match digits s 0%Z with
  | Some z => if (String.length s <=? 15)%nat then PrimFloat.of_uint63 (Uint63.of_Z z)
              else PrimFloat.nan
  | None => PrimFloat.nan
  end.

(** The runtime on the samples, whose texts are ASCII: digits to numbers,
    and A to Z to a to z. *)
Definition runtime : Runtime := mkRuntime digitsToNumber JsString.lowerAZ.

(** The component once mounted, its first load pending. *)
Definition firstLoad : State := rerender runtime initial.

(** The component with two loads pending: mounted, then refreshed. *)
Definition twoLoads : State := rerender runtime (refresh firstLoad).

(** The component after its first load has failed. *)
Definition afterFailure : State :=
  rerender runtime
           (snd (fetchOrders_settle (Rejected "boom") (settled 0 firstLoad))).

(** The component after its first load has brought two orders. *)
Definition loaded : State :=
  rerender runtime
           (snd (fetchOrders_settle (ok [alice; bob]) (settled 0 firstLoad))).

End Sample.

(** ** The load state of the data model

    [useOrders] keeps no value of this type: it keeps [orders], [loading]
    and [error].  [active s l] reads the four states of the data model off
    these fields: idle before the component is mounted, loading while the
    flag is set, failed while a message is set, ready otherwise. *)

Inductive LoadState :=
| Idle
| Loading
| Ready (data : list Order)
| Failed (message : string).

Definition active (s : State) (l : LoadState) : Prop :=
  match l with
  | Idle => mounted s = false
  | Loading => loading s = true
  | Ready data =>
      mounted s = true /\ loading s = false /\ error s = None /\
      elems (orders s) = data
  | Failed message => error s = Some message
  end.

(** A load fails with [err] when [fetch] rejects or when [json()] does. *)
Definition fails (res : Settled Response) (err : string) : Prop :=
  res = Rejected err \/ res = Fulfilled (mkResponse (Rejected err)).

(** ** Invariants of the component *)

(** What holds between the callbacks of an event and the render that
    follows: the message is the static one, every object is allocated, and
    the revenue memo was computed for the array the other memo holds. *)
Record consistent (s : State) : Prop := {
  error_static : error s = None \/ error s = Some failedMessage;
  orders_allocated : ref (orders s) < nextRef s;
  requests_issued : forall r, In r (inflight s) -> r < issued s;
  memos_agree :
    match memoFiltered s with
    | None => memoRevenue s = None
    | Some (_, kept) =>
        ref kept < nextRef s /\
        memoRevenue s = Some (ref kept, totalRevenue (elems kept))
    end
}.

(** What holds once the render and its effect are done. *)
Record rendered (s : State) : Prop := {
  rendered_consistent : consistent s;
  effect_ran : effectDeps s = Some (List.length (elems (orders s)));
  memo_current : exists kept, memoFiltered s = Some (ref (orders s), kept)
}.

(** [s1] differs from [s] in the criteria at most: what the handlers of
    the three inputs do. *)
Definition criteriaOnly (s s1 : State) : Prop :=
  orders s1 = orders s /\ loading s1 = loading s /\ error s1 = error s /\
  effectDeps s1 = effectDeps s /\ memoFiltered s1 = memoFiltered s /\
  memoRevenue s1 = memoRevenue s /\ nextRef s1 = nextRef s /\
  issued s1 = issued s /\ inflight s1 = inflight s /\ console s1 = console s.

(** ** What a sequence of events leaves in the store

    [outcome] is what the first two callbacks of [fetchOrders] make of a
    settled request: the parsed orders, or the reason of the rejection of
    [fetch] or of [json()].  The three functions below give what one event
    does to [orders], to [error] and to the console, read off the
    callbacks: only a settled request writes to them. *)

Definition outcome (res : Settled Response) : Settled (list Order) :=
  match res with
  | Fulfilled r => json r
  | Rejected err => Rejected err
  end.

Definition ordersAfter (current : list Order) (e : Event) : list Order :=
  match e with
  | Settle _ res =>
      match outcome res with
      | Fulfilled data => data
      | Rejected _ => current
      end
  | _ => current
  end.

Definition errorAfter (current : option string) (e : Event) : option string :=
  match e with
  | Settle _ res =>
      match outcome res with
      | Fulfilled _ => None
      | Rejected _ => Some failedMessage
      end
  | _ => current
  end.

Definition consoleAfter (current : list string) (e : Event) : list string :=
  match e with
  | Settle _ res =>
      match outcome res with
      | Fulfilled _ => current
      | Rejected err => current ++ [err]
      end
  | _ => current
  end.

(** ** The Refresh button

    The button of the table carries [disabled={loading}]: while the flag
    is up it sends no click.  [ui_step] is [step] with this restriction on
    [Refresh]; the other events are as before, batched as [handle] has
    them. *)

Definition refreshDisabled (s : State) : bool := loading s.

Section Button.

Variable rt : Runtime.

Definition ui_step (e : Event) (s : State) : option State :=
  match e with
  | Refresh => if refreshDisabled s then None else step rt e s
  | _ => step rt e s
  end.

Fixpoint ui_run (es : list Event) (s : State) : option State :=
  match es with
  | [] => Some s
  | e :: r =>
      match ui_step e s with
      | Some s' => ui_run r s'
      | None => None
      end
  end.


End Button.


(** The minimum in state is a text that is empty or converts to a number. *)
Definition minTotalValid (rt : Runtime) (s : State) : Prop :=
  exists v, minTotal s = Str v /\
            (v = "" \/ JsNumber.isNaN (StringToNumber rt v) = false).

(** * Properties *)

(** ** Strings: occurrence and order *)

Lemma prefix_append (t s : string) :
  prefix t s = true <-> exists post : string, s = (t ++ post)%string.
Proof.
  revert s; induction t as [|c t IH]; intros s; simpl.
  - split; [intros _; exists s; reflexivity | intros _; now destruct s].
  - destruct s as [|d s].
    + split; [discriminate | intros [post H]; discriminate].
    + simpl. destruct (ascii_dec c d) as [->|Hcd].
      * rewrite IH. split; intros [post H]; exists post.
        -- now rewrite H.
        -- now injection H.
      * split; [discriminate | intros [post H]; injection H; congruence].
Qed.

Lemma includes_substring (s t : string) :
  JsString.includes s t = true <-> substring_of t s.
Proof.
  unfold substring_of. split.
  - induction s as [|c s IH]; cbn [JsString.includes];
      rewrite orb_true_iff; intros [H|H].
    + apply prefix_append in H. destruct H as [post H].
      exists EmptyString, post. exact H.
    + discriminate.
    + apply prefix_append in H. destruct H as [post H].
      exists EmptyString, post. exact H.
    + destruct (IH H) as (pre & post & E).
      exists (String c pre), post. simpl. now rewrite E.
  - intros (pre & post & E). revert s E.
    induction pre as [|c pre IH]; intros s E.
    + simpl in E.
      assert (P : prefix t s = true) by (apply prefix_append; now exists post).
      destruct s; cbn [JsString.includes]; now rewrite P.
    + simpl in E. subst s. cbn [JsString.includes].
      rewrite (IH _ eq_refl). apply orb_true_r.
Qed.

Lemma string_compare_refl (s : string) : String.compare s s = Eq.
Proof.
  induction s as [|c s IH]; simpl; [reflexivity|].
  unfold Ascii.compare. now rewrite N.compare_refl.
Qed.

Lemma string_compare_lt_trans (a b c : string) :
  String.compare a b = Lt -> String.compare b c = Lt -> String.compare a c = Lt.
Proof.
  revert b c; induction a as [|x a IH]; intros [|y b] [|z c]; simpl;
    try discriminate; try reflexivity.
  unfold Ascii.compare.
  destruct (N.compare_spec (N_of_ascii x) (N_of_ascii y)) as [Exy|Lxy|Gxy];
    try discriminate;
    destruct (N.compare_spec (N_of_ascii y) (N_of_ascii z)) as [Eyz|Lyz|Gyz];
    try discriminate; intros H1 H2.
  - rewrite Exy, Eyz, N.compare_refl. eauto.
  - rewrite Exy. now apply N.compare_lt_iff in Lyz as ->.
  - rewrite <- Eyz. now apply N.compare_lt_iff in Lxy as ->.
  - assert (L : (N_of_ascii x < N_of_ascii z)%N) by lia.
    now apply N.compare_lt_iff in L as ->.
Qed.

Lemma string_leb_trans (a b c : string) :
  String.leb a b = true -> String.leb b c = true -> String.leb a c = true.
Proof.
  unfold String.leb.
  destruct (String.compare a b) eqn:Eab; try discriminate;
    destruct (String.compare b c) eqn:Ebc; try discriminate; intros _ _.
  - apply String.compare_eq_iff in Eab, Ebc. subst.
    now rewrite string_compare_refl.
  - apply String.compare_eq_iff in Eab. subst. now rewrite Ebc.
  - apply String.compare_eq_iff in Ebc. subst. now rewrite Eab.
  - now rewrite (string_compare_lt_trans _ _ _ Eab Ebc).
Qed.

Lemma gt_leb (s t : string) : JsString.gt s t = true -> String.leb t s = true.
Proof.
  unfold JsString.gt, String.ltb, String.leb.
  now destruct (String.compare t s).
Qed.

Lemma not_gt_leb (s t : string) : JsString.gt s t = false -> String.leb s t = true.
Proof.
  unfold JsString.gt, String.ltb, String.leb.
  rewrite (String.compare_antisym s t).
  now destruct (String.compare t s).
Qed.

Lemma gt_irrefl (s : string) : JsString.gt s s = false.
Proof.
  unfold JsString.gt, String.ltb. now rewrite string_compare_refl.
Qed.

#[local] Instance newer_or_same_trans : RelationClasses.Transitive newer_or_same.
Proof.
  intros a b c Hab Hbc. unfold newer_or_same in *.
  eapply string_leb_trans; eassumption.
Qed.

(** ** Numbers: [<] and [>=] away from [NaN] *)

Lemma SFcompare_antisym (x y : spec_float) :
  SFcompare y x = option_map CompOpp (SFcompare x y).
Proof.
  destruct x as [sx|sx| |sx mx ex], y as [sy|sy| |sy my ey]; simpl;
    try reflexivity;
    try (destruct sx; reflexivity);
    try (destruct sy; reflexivity);
    try (destruct sx, sy; reflexivity).
  destruct sx, sy; simpl; try reflexivity.
  - rewrite (Z.compare_antisym ex ey).
    destruct (Z.compare ex ey); simpl; try reflexivity.
    now rewrite (Pos.compare_cont_antisym mx my Eq).
  - rewrite (Z.compare_antisym ex ey).
    destruct (Z.compare ex ey); simpl; try reflexivity.
    now rewrite (Pos.compare_cont_antisym mx my Eq).
Qed.

Lemma SFcompare_defined (x y : spec_float) :
  SFeqb x x = true -> SFeqb y y = true -> exists c, SFcompare x y = Some c.
Proof.
  unfold SFeqb.
  destruct x, y; simpl; try discriminate; intros _ _; eexists; reflexivity.
Qed.

Lemma not_lt_is_ge (x y : number) :
  JsNumber.isNaN x = false -> JsNumber.isNaN y = false ->
  negb (JsNumber.lt x y) = JsNumber.ge x y.
Proof.
  unfold JsNumber.isNaN, JsNumber.lt, JsNumber.ge, PrimFloat.is_nan.
  rewrite !negb_false_iff, !eqb_spec, ltb_spec, leb_spec. intros Hx Hy.
  destruct (SFcompare_defined _ _ Hx Hy) as [c Hc].
  unfold SFltb, SFleb. rewrite (SFcompare_antisym (Prim2SF x) (Prim2SF y)), Hc.
  now destruct c.
Qed.

(** ** Arrays: what [sort] does with a comparator *)

Section SortFacts.

Variable A : Type.
Variable comparefn : A -> A -> Z.

Lemma insert_by_perm (x : A) (l : list A) :
  Permutation (JsArray.insert_by comparefn x l) (x :: l).
Proof.
  induction l as [|y r IH]; simpl; [reflexivity|].
  destruct (comparefn x y <? 0)%Z; [reflexivity|].
  rewrite IH. apply perm_swap.
Qed.

Lemma sort_perm (l : list A) : Permutation (JsArray.sort comparefn l) l.
Proof.
  unfold JsArray.sort.
  assert (G : forall acc,
             Permutation
               (fold_left (fun acc x => JsArray.insert_by comparefn x acc) l acc)
               (acc ++ l)).
  { induction l as [|x r IH]; intros acc; simpl.
    - now rewrite app_nil_r.
    - rewrite IH, insert_by_perm. apply Permutation_middle. }
  apply (G []).
Qed.

(** The comparator agrees with an order [R]: it answers below zero only
    for pairs in order, and anything else only for pairs in the opposite
    order. *)
Variable R : A -> A -> Prop.
Hypothesis below : forall x y, (comparefn x y <? 0)%Z = true -> R x y.
Hypothesis above : forall x y, (comparefn x y <? 0)%Z = false -> R y x.

Lemma insert_by_sorted (x : A) (l : list A) :
  Sorted R l -> Sorted R (JsArray.insert_by comparefn x l).
Proof.
  induction l as [|y r IH]; intros Hs; simpl.
  - repeat constructor.
  - destruct (comparefn x y <? 0)%Z eqn:E.
    + constructor; [assumption|]. constructor. now apply below.
    + inversion Hs as [|? ? Hr Hh]; subst.
      constructor; [now apply IH|].
      destruct r as [|z r']; simpl.
      * constructor. now apply above.
      * destruct (comparefn x z <? 0)%Z.
        -- constructor. now apply above.
        -- constructor. now inversion Hh.
Qed.

Lemma sort_sorted (l : list A) : Sorted R (JsArray.sort comparefn l).
Proof.
  unfold JsArray.sort.
  assert (G : forall acc, Sorted R acc ->
             Sorted R
               (fold_left (fun acc x => JsArray.insert_by comparefn x acc) l acc)).
  { induction l as [|x r IH]; intros acc Hacc; simpl; [assumption|].
    apply IH. now apply insert_by_sorted. }
  apply G. constructor.
Qed.

End SortFacts.

Lemma comparator_below (a b : Order) :
  (comparator a b <? 0)%Z = true -> newer_or_same a b.
Proof.
  unfold comparator, newer_or_same.
  destruct (JsString.gt (createdAt a) (createdAt b)) eqn:E; [|discriminate].
  intros _. now apply gt_leb.
Qed.

Lemma comparator_above (a b : Order) :
  (comparator a b <? 0)%Z = false -> newer_or_same b a.
Proof.
  unfold comparator, newer_or_same.
  destruct (JsString.gt (createdAt a) (createdAt b)) eqn:E; [discriminate|].
  intros _. now apply not_gt_leb.
Qed.

(** ** The filter callback and the filter rule *)

Lemma OrderStatus_eqb_eq (a b : OrderStatus) :
  OrderStatus_eqb a b = true <-> a = b.
Proof. destruct a, b; simpl; split; congruence. Qed.

Lemma truthy_nonempty (s : string) : JsString.truthy s = true <-> s <> "".
Proof. destruct s; simpl; split; congruence. Qed.

(** Lower-casing A to Z, against the letters taken one by one. *)

Lemma nat_of_lower_ascii (c : ascii) :
  nat_of_ascii (JsString.lower_ascii c)
  = if (65 <=? nat_of_ascii c)%nat && (nat_of_ascii c <=? 90)%nat
    then nat_of_ascii c + 32 else nat_of_ascii c.
Proof.
  unfold JsString.lower_ascii.
  destruct ((65 <=? nat_of_ascii c)%nat && (nat_of_ascii c <=? 90)%nat) eqn:E;
    [|reflexivity].
  apply andb_true_iff in E. destruct E as [E1 E2].
  apply Nat.leb_le in E1, E2. apply nat_ascii_embedding. lia.
Qed.

Lemma nat_of_ascii_inj (c d : ascii) : nat_of_ascii c = nat_of_ascii d -> c = d.
Proof.
  intros E. rewrite <- (ascii_nat_embedding c), <- (ascii_nat_embedding d).
  now rewrite E.
Qed.

Lemma lower_ascii_same_letter (c d : ascii) :
  JsString.lower_ascii c = JsString.lower_ascii d <-> same_letter c d.
Proof.
  unfold same_letter. split.
  - intros E. apply (f_equal nat_of_ascii) in E.
    rewrite !nat_of_lower_ascii in E.
    destruct ((65 <=? nat_of_ascii c)%nat && (nat_of_ascii c <=? 90)%nat) eqn:Ec;
      destruct ((65 <=? nat_of_ascii d)%nat && (nat_of_ascii d <=? 90)%nat) eqn:Ed;
      try (apply andb_true_iff in Ec; destruct Ec as [Ec1 Ec2];
           apply Nat.leb_le in Ec1, Ec2);
      try (apply andb_true_iff in Ed; destruct Ed as [Ed1 Ed2];
           apply Nat.leb_le in Ed1, Ed2);
      lia.
  - intros H. apply nat_of_ascii_inj. rewrite !nat_of_lower_ascii.
    destruct ((65 <=? nat_of_ascii c)%nat && (nat_of_ascii c <=? 90)%nat) eqn:Ec;
      destruct ((65 <=? nat_of_ascii d)%nat && (nat_of_ascii d <=? 90)%nat) eqn:Ed;
      try (apply andb_true_iff in Ec; destruct Ec as [Ec1 Ec2];
           apply Nat.leb_le in Ec1, Ec2);
      try (apply andb_false_iff in Ec; rewrite !Nat.leb_gt in Ec);
      try (apply andb_true_iff in Ed; destruct Ed as [Ed1 Ed2];
           apply Nat.leb_le in Ed1, Ed2);
      try (apply andb_false_iff in Ed; rewrite !Nat.leb_gt in Ed);
      lia.
Qed.

Lemma lowerAZ_same (s t : string) :
  JsString.lowerAZ s = JsString.lowerAZ t <-> same_ignoring_case s t.
Proof.
  revert t; induction s as [|c s IH]; intros [|d t]; simpl;
    try (split; [discriminate|contradiction]).
  - split; reflexivity.
  - rewrite <- IH, <- lower_ascii_same_letter. split.
    + intros E. now injection E.
    + intros [-> ->]. reflexivity.
Qed.

Lemma lowerAZ_app (a b : string) :
  JsString.lowerAZ (a ++ b) = (JsString.lowerAZ a ++ JsString.lowerAZ b)%string.
Proof. induction a as [|c a IH]; simpl; [reflexivity|now rewrite IH]. Qed.

Lemma lowerAZ_split (s a b : string) :
  JsString.lowerAZ s = (a ++ b)%string ->
  exists s1 s2 : string,
    s = (s1 ++ s2)%string /\ JsString.lowerAZ s1 = a /\ JsString.lowerAZ s2 = b.
Proof.
  revert s; induction a as [|c a IH]; intros s E; simpl in E.
  - exists EmptyString, s. repeat split. exact E.
  - destruct s as [|d s]; simpl in E; [discriminate|].
    injection E as Ec Es. destruct (IH s Es) as (s1 & s2 & -> & <- & <-).
    exists (String d s1), s2. simpl. now rewrite Ec.
Qed.

(** On any two texts: the one lower-cased occurs in the other lower-cased
    exactly when it occurs in it up to the case of the letters. *)
Lemma lowerAZ_occurs (t s : string) :
  substring_of (JsString.lowerAZ t) (JsString.lowerAZ s)
  <-> occurs_ignoring_case t s.
Proof.
  unfold substring_of, occurs_ignoring_case. split.
  - intros (pre & post & E).
    destruct (lowerAZ_split s _ _ E) as (s1 & s23 & -> & _ & E23).
    destruct (lowerAZ_split s23 _ _ E23) as (s2 & s3 & -> & E2 & _).
    exists s1, s2, s3. split; [reflexivity|].
    apply lowerAZ_same. now symmetry.
  - intros (pre & mid & post & -> & H).
    apply lowerAZ_same in H.
    exists (JsString.lowerAZ pre), (JsString.lowerAZ post).
    now rewrite !lowerAZ_app, H.
Qed.

Section KeepFacts.

Variable rt : Runtime.
Hypothesis lowering : lowers_ascii rt.

Lemma includes_matches (s name : string) :
  JsString.includes (toLowerCase rt name) (toLowerCase rt s) = true
  <-> matches_ignoring_case rt s name.
Proof.
  rewrite includes_substring. unfold matches_ignoring_case.
  destruct (JsString.ascii_text s && JsString.ascii_text name) eqn:E;
    [|reflexivity].
  apply andb_true_iff in E. destruct E as [Es En].
  rewrite (lowering s Es), (lowering name En). apply lowerAZ_occurs.
Qed.

Lemma keep_search (search : option string) (o : Order) :
  match search with
  | Some s =>
      JsString.truthy s &&
      negb (JsString.includes (toLowerCase rt (customerName o))
                              (toLowerCase rt s))
  | None => false
  end = false <-> passes_search rt search o.
Proof.
  unfold passes_search. destruct search as [s|].
  - rewrite andb_false_iff, negb_false_iff, includes_matches. split.
    + intros [H|H] s' E Hne; injection E as <-.
      * apply truthy_nonempty in Hne. congruence.
      * exact H.
    + intros H. destruct (JsString.truthy s) eqn:T; [right|now left].
      apply H; [reflexivity|now apply truthy_nonempty].
  - split; [intros _ s E; discriminate | reflexivity].
Qed.

Lemma keep_status (f : StatusFilter) (o : Order) :
  match f with
  | all => false
  | only st => negb (OrderStatus_eqb (status o) st)
  end = false <-> passes_status f o.
Proof.
  unfold passes_status. destruct f as [|st].
  - split; [intros _ st E; discriminate | reflexivity].
  - rewrite negb_false_iff, OrderStatus_eqb_eq. split.
    + intros H st' E. now injection E as <-.
    + intros H. now apply H.
Qed.

Lemma truthy_given (m : NumberOrString) :
  (minTotal_given m -> JsNumber.isNaN (Number rt m) = false) ->
  truthy_ns m = true <-> minTotal_given m.
Proof.
  destruct m as [x|s]; simpl; intros Hm.
  - unfold JsNumber.truthy. rewrite andb_true_iff, !negb_true_iff. split.
    + now intros [H _].
    + intros H. split; [assumption|now apply Hm].
  - apply truthy_nonempty.
Qed.

Lemma keep_minTotal (m : NumberOrString) (o : Order) :
  JsNumber.isNaN (total o) = false ->
  (minTotal_given m -> JsNumber.isNaN (Number rt m) = false) ->
  truthy_ns m && JsNumber.lt (total o) (Number rt m) = false
  <-> passes_minTotal rt m o.
Proof.
  intros Ho Hm. unfold passes_minTotal.
  pose proof (truthy_given m Hm) as G.
  destruct (truthy_ns m) eqn:T; simpl.
  - assert (Gm : minTotal_given m) by now apply G.
    rewrite <- (not_lt_is_ge _ _ Ho (Hm Gm)), negb_true_iff.
    split; [intros H _; exact H | intros H; now apply H].
  - split; [|reflexivity]. intros _ H. apply G in H. discriminate.
Qed.

Lemma keep_passes (search : option string) (f : StatusFilter)
      (m : NumberOrString) (o : Order) :
  JsNumber.isNaN (total o) = false ->
  (minTotal_given m -> JsNumber.isNaN (Number rt m) = false) ->
  keep rt search f m o = true <-> passes rt search f m o.
Proof.
  intros Ho Hm. unfold keep, passes.
  rewrite <- keep_search, <- keep_status, <- (keep_minTotal m o Ho Hm).
  destruct (match search with Some _ => _ | None => _ end);
    destruct (match f with all => _ | only _ => _ end);
    destruct (truthy_ns m && _); intuition congruence.
Qed.

End KeepFacts.

(** ** The query pipeline *)

(** C1. For every list of orders and every criteria, [filteredOrders]
    holds exactly the orders of the list that pass the three predicates of
    the filter rule (the search text, when set and not empty, occurs in the
    customer name whatever the case of the letters; the status is the
    selected one unless the selection is "all"; the total is [>=] the
    minimum when the minimum is set and neither zero nor empty), each as
    often as the list has it, and is arranged by descending [createdAt]
    under the lexicographic order of strings.  Amounts are numbers other
    than [NaN]; on ASCII text the runtime's [toLowerCase] turns A to Z
    into a to z. *)
Theorem filteredOrders_filters_and_sorts
        (rt : Runtime) (O : list Order)
        (search : option string) (f : StatusFilter) (m : NumberOrString) :
  lowers_ascii rt ->
  (forall o, In o O -> JsNumber.isNaN (total o) = false) ->
  (minTotal_given m -> JsNumber.isNaN (Number rt m) = false) ->
  let V := filteredOrders rt O search f m in
  (forall o, In o V <-> In o O /\ passes rt search f m o) /\
  Permutation V (filter (keep rt search f m) O) /\
  (forall o, In o O ->
     (keep rt search f m o = true
      <-> passes rt search f m o)) /\
  StronglySorted newer_or_same V.
Proof.
  intros HL HO Hm V.
  assert (P : Permutation V (filter (keep rt search f m) O))
    by apply sort_perm.
  assert (K : forall o, In o O ->
                (keep rt search f m o = true
                 <-> passes rt search f m o))
    by (intros o Ho; apply keep_passes; auto).
  split; [|split; [exact P|split; [exact K|]]].
  - intros o. split.
    + intros Ho. apply (Permutation_in _ P) in Ho.
      apply filter_In in Ho. destruct Ho as [Ho Hk].
      split; [assumption|now apply K].
    + intros [Ho Hp]. apply (Permutation_in _ (Permutation_sym P)).
      apply filter_In. split; [assumption|now apply K].
  - apply Sorted_StronglySorted; [exact newer_or_same_trans|].
    apply sort_sorted; [exact comparator_below | exact comparator_above].
Qed.

Lemma filteredOrders_filters_and_sorts_witness :
  let V := filteredOrders Sample.runtime [Sample.alice; Sample.bob]
                          (Some "bO") all (Str "15") in
  (forall o, In o V <->
     In o [Sample.alice; Sample.bob] /\
     passes Sample.runtime (Some "bO") all (Str "15") o) /\
  Permutation V
    (filter (keep Sample.runtime (Some "bO") all (Str "15"))
            [Sample.alice; Sample.bob]) /\
  (forall o, In o [Sample.alice; Sample.bob] ->
     (keep Sample.runtime (Some "bO") all (Str "15") o = true
      <-> passes Sample.runtime (Some "bO") all (Str "15") o)) /\
  StronglySorted newer_or_same V.
Proof.
  apply (@filteredOrders_filters_and_sorts Sample.runtime
           [Sample.alice; Sample.bob] (Some "bO") all (Str "15")).
  - intros s _. reflexivity.
  - intros o [<-|[<-|[]]]; reflexivity.
  - intros _. reflexivity.
Defined.

(** On ASCII texts the search predicate of the filter rule is the
    occurrence of the search text in the name letter by letter, in either
    case: "bO" passes "Bob" and does not pass "Alice". *)
Example search_passes_letter_by_letter :
  passes_search Sample.runtime (Some "bO") Sample.bob /\
  ~ passes_search Sample.runtime (Some "bO") Sample.alice /\
  In Sample.bob (filteredOrders Sample.runtime [Sample.alice; Sample.bob]
                                (Some "bO") all (Str "")) /\
  ~ In Sample.alice (filteredOrders Sample.runtime [Sample.alice; Sample.bob]
                                    (Some "bO") all (Str "")).
Proof.
  split; [|split; [|split]].
  - intros s E _. injection E as <-.
    change (occurs_ignoring_case "bO" "Bob").
    exists ""%string, "Bo"%string, "b"%string. split; [reflexivity|].
    unfold same_ignoring_case, same_letter. vm_compute. intuition lia.
  - intros H. specialize (H "bO"%string eq_refl). 
    assert (Hne : "bO"%string <> ""%string) by discriminate.
    apply H in Hne. change (occurs_ignoring_case "bO" "Alice") in Hne.
    apply lowerAZ_occurs in Hne. apply includes_substring in Hne.
    discriminate.
  - vm_compute. now left.
  - vm_compute. intros [H|[]]. discriminate.
Qed.

(** The comparator answers [1] whenever the first timestamp is not
    strictly the later one; it never answers [0]. *)
Lemma comparator_same_timestamp (a b : Order) :
  createdAt a = createdAt b -> comparator a b = 1%Z.
Proof.
  intros E. unfold comparator. now rewrite E, gt_irrefl.
Qed.

Lemma comparator_never_zero (a b : Order) : comparator a b <> 0%Z.
Proof.
  unfold comparator. now destruct (JsString.gt (createdAt a) (createdAt b)).
Qed.

(** C3. Two orders created at the same instant: the comparator does not
    answer [0] for them; it answers [1] in both directions, placing each
    after the other. *)
Theorem comparator_ties_unequal :
  createdAt Sample.alice = createdAt Sample.carol /\
  comparator Sample.alice Sample.carol = 1%Z /\
  comparator Sample.carol Sample.alice = 1%Z /\
  comparator Sample.alice Sample.alice = 1%Z.
Proof. repeat split. Qed.

Lemma fold_left_map_total (l : list Order) (acc : number) :
  fold_left (fun sum order => PrimFloat.add sum (total order)) l acc
  = fold_left PrimFloat.add (map total l) acc.
Proof.
  revert acc; induction l as [|o l IH]; intros acc; simpl; [reflexivity|].
  apply IH.
Qed.

(** ** Rendering *)

Section RenderFacts.

Variable rt : Runtime.

(** A render touches nothing but the memos and the allocator. *)
Lemma render_frame (s : State) :
  let s' := snd (render rt s) in
  orders s' = orders s /\ loading s' = loading s /\ error s' = error s /\
  search s' = search s /\ statusFilter s' = statusFilter s /\
  minTotal s' = minTotal s /\ effectDeps s' = effectDeps s /\
  issued s' = issued s /\ inflight s' = inflight s /\ console s' = console s.
Proof.
  unfold render, useMemo_filteredOrders, useMemo_totalRevenue.
  destruct s as [o l e se sf mt ed mf mr nr i fl c]; simpl.
  destruct mf as [[dep kept]|]; [destruct (Nat.eqb dep (ref o))|];
    destruct mr as [[dep' kept']|]; simpl;
    try destruct (Nat.eqb dep' _); simpl; repeat split.
Qed.

(** The effect touches nothing but its dependencies, the loading flag and
    the requests. *)
Lemma useEffect_frame (s : State) :
  let s' := useEffect_fetch s in
  orders s' = orders s /\ error s' = error s /\
  search s' = search s /\ statusFilter s' = statusFilter s /\
  minTotal s' = minTotal s /\ memoFiltered s' = memoFiltered s /\
  memoRevenue s' = memoRevenue s /\ nextRef s' = nextRef s /\
  console s' = console s /\
  effectDeps s' = Some (List.length (elems (orders s))).
Proof.
  unfold useEffect_fetch.
  destruct s as [o l e se sf mt ed mf mr nr i fl c]; simpl.
  destruct ed as [m|]; [destruct (Nat.eqb m _) eqn:E|]; simpl; repeat split.
  apply Nat.eqb_eq in E. now subst.
Qed.

(** When the effect runs, and what it then does. *)
Lemma useEffect_runs (s : State) :
  let s' := useEffect_fetch s in
  let changed :=
    match effectDeps s with
    | Some m => negb (Nat.eqb m (List.length (elems (orders s))))
    | None => true
    end in
  (changed = true ->
     loading s' = true /\ issued s' = S (issued s) /\
     inflight s' = inflight s ++ [issued s]) /\
  (changed = false ->
     loading s' = loading s /\ issued s' = issued s /\
     inflight s' = inflight s).
Proof.
  unfold useEffect_fetch.
  destruct s as [o l e se sf mt ed mf mr nr i fl c]; simpl.
  destruct ed as [m|]; [destruct (Nat.eqb m _) eqn:E|]; simpl;
    split; intros H; try discriminate; repeat split.
Qed.

(** What a render computes and what it keeps. *)
Lemma render_memos (s : State) :
  consistent s ->
  let s' := snd (render rt s) in
  exists kept,
    memoFiltered s' = Some (ref (orders s), kept) /\
    ref kept < nextRef s' /\
    memoRevenue s' = Some (ref kept, totalRevenue (elems kept)) /\
    fst (render rt s) = mkView (elems kept) (totalRevenue (elems kept)) /\
    nextRef s <= nextRef s' /\
    (memoFiltered s = Some (ref (orders s), kept) \/
     (forall kept0, memoFiltered s <> Some (ref (orders s), kept0)) /\
     elems kept = filteredOrders rt (elems (orders s)) (search s)
                                 (statusFilter s) (minTotal s)).
Proof.
  intros [_ _ _ Hm].
  unfold render, useMemo_filteredOrders, useMemo_totalRevenue.
  destruct s as [o l e se sf mt ed mf mr nr i fl c]; simpl in *.
  destruct mf as [[dep kept]|].
  - destruct Hm as [Hk ->].
    destruct (Nat.eqb dep (ref o)) eqn:E; simpl.
    + apply Nat.eqb_eq in E. subst dep. rewrite Nat.eqb_refl. simpl.
      exists kept. repeat split; auto.
    + assert (N : Nat.eqb (ref kept) nr = false) by (apply Nat.eqb_neq; lia).
      rewrite N. simpl. eexists. repeat split; auto.
      right. split; [|reflexivity].
      intros kept0 H. injection H as H _. apply Nat.eqb_neq in E. congruence.
  - rewrite Hm. simpl. eexists. repeat split; auto.
    right. split; [discriminate|reflexivity].
Qed.

Lemma render_consistent (s : State) :
  consistent s -> consistent (snd (render rt s)).
Proof.
  intros C. destruct (render_memos C) as (kept & Hf & Hk & Hr & _ & Hn & _).
  destruct (render_frame s) as (Ho & _ & He & _ & _ & _ & _ & Hi & Hfl & _).
  destruct C as [C1 C2 C3 _].
  constructor.
  - now rewrite He.
  - rewrite Ho. lia.
  - rewrite Hi, Hfl. exact C3.
  - rewrite Hf. now split.
Qed.

Lemma fetchOrders_consistent (s : State) :
  consistent s -> consistent (fetchOrders s).
Proof.
  intros [C1 C2 C3 C4]. destruct s; simpl in *.
  constructor; simpl; auto.
  intros r Hr. apply in_app_or in Hr. destruct Hr as [Hr|[<-|[]]]; [|lia].
  specialize (C3 r Hr). lia.
Qed.

Lemma useEffect_consistent (s : State) :
  consistent s -> consistent (useEffect_fetch s).
Proof.
  intros C. unfold useEffect_fetch.
  destruct (effectDeps s) as [m|] eqn:E; [destruct (Nat.eqb m _); [assumption|]|];
    apply fetchOrders_consistent; destruct C as [C1 C2 C3 C4];
    destruct s; simpl in *; constructor; simpl; auto.
Qed.

Lemma rerender_rendered (s : State) : consistent s -> rendered (rerender rt s).
Proof.
  intros C. unfold rerender.
  destruct (render_memos C) as (kept & Hf & _).
  destruct (render_frame s) as (Ho & _).
  pose proof (render_consistent C) as C'.
  destruct (useEffect_frame (snd (render rt s)))
    as (Ho' & _ & _ & _ & _ & Hmf & _ & _ & _ & Hed).
  constructor.
  - now apply useEffect_consistent.
  - now rewrite Ho'.
  - exists kept. now rewrite Hmf, Ho', Ho.
Qed.

End RenderFacts.

(** ** The callbacks of a load *)

Lemma settle_success (data : list Order) (s : State) :
  fetchOrders_settle (Fulfilled (mkResponse (Fulfilled data))) s =
  (Fulfilled tt,
   {| orders := mkArr (nextRef s) data; loading := false; error := None;
      search := search s; statusFilter := statusFilter s; minTotal := minTotal s;
      effectDeps := effectDeps s; memoFiltered := memoFiltered s;
      memoRevenue := memoRevenue s;
      nextRef := S (nextRef s); issued := issued s; inflight := inflight s;
      console := console s |}).
Proof. reflexivity. Qed.

Lemma settle_failure (res : Settled Response) (err : string) (s : State) :
  fails res err ->
  fetchOrders_settle res s =
  (Fulfilled tt,
   {| orders := orders s; loading := false; error := Some failedMessage;
      search := search s; statusFilter := statusFilter s; minTotal := minTotal s;
      effectDeps := effectDeps s; memoFiltered := memoFiltered s;
      memoRevenue := memoRevenue s;
      nextRef := nextRef s; issued := issued s; inflight := inflight s;
      console := console s ++ [err] |}).
Proof. intros [->| ->]; reflexivity. Qed.

(** A settled promise is of one of the two kinds. *)
Lemma settle_cases (res : Settled Response) :
  (exists data, res = Fulfilled (mkResponse (Fulfilled data))) \/
  (exists err, fails res err).
Proof.
  destruct res as [[[data|err]]|err].
  - left. now exists data.
  - right. exists err. now right.
  - right. exists err. now left.
Qed.

Lemma settled_consistent (r : nat) (s : State) :
  consistent s -> consistent (settled r s).
Proof.
  intros [C1 C2 C3 C4]. destruct s; simpl in *.
  constructor; simpl; auto.
  intros r' Hr. apply in_remove in Hr. now apply C3.
Qed.

Lemma fetchOrders_settle_consistent (res : Settled Response) (s : State) :
  consistent s -> consistent (snd (fetchOrders_settle res s)).
Proof.
  intros [C1 C2 C3 C4].
  destruct (settle_cases res) as [[data ->]|[err F]].
  - rewrite settle_success. destruct s; simpl in *.
    constructor; simpl; auto.
    destruct memoFiltered0 as [[dep kept]|]; [|assumption].
    destruct C4; split; [lia|assumption].
  - rewrite (settle_failure s F). destruct s; simpl in *.
    constructor; simpl; auto.
Qed.

(** ** Reachable states *)

Lemma initial_consistent : consistent initial.
Proof. constructor; simpl; auto. intros r []. Qed.

Lemma rendered_mounted (s : State) : rendered s -> mounted s = true.
Proof. intros [_ E _]. unfold mounted. now rewrite E. Qed.

Section Reachability.

Variable rt : Runtime.

Lemma handleMinTotalChange_consistent (v : string) (s : State) :
  consistent s -> consistent (handleMinTotalChange rt v s).
Proof.
  intros C. unfold handleMinTotalChange.
  destruct (String.eqb v ""); [|destruct (negb _); [|assumption]];
    destruct C as [C1 C2 C3 C4]; destruct s; simpl in *;
    constructor; simpl; auto.
Qed.

Lemma handle_consistent (e : Event) (s s1 : State) :
  s = initial \/ rendered s ->
  handle rt e s = Some s1 -> consistent s1.
Proof.
  intros Hs H.
  assert (C : consistent s).
  { destruct Hs as [->|[C _ _]]; [apply initial_consistent|assumption]. }
  destruct e as [| |r res|v|v|v]; simpl in H.
  - destruct (mounted s); [discriminate|]. now injection H as <-.
  - destruct (mounted s); [|discriminate]. injection H as <-.
    now apply fetchOrders_consistent.
  - destruct (mounted s && awaiting r s); [|discriminate]. injection H as <-.
    now apply fetchOrders_settle_consistent, settled_consistent.
  - destruct (mounted s); [|discriminate]. injection H as <-.
    destruct C as [C1 C2 C3 C4]; destruct s; simpl in *;
      constructor; simpl; auto.
  - destruct (mounted s); [|discriminate]. injection H as <-.
    destruct C as [C1 C2 C3 C4]; destruct s; simpl in *;
      constructor; simpl; auto.
  - destruct (mounted s); [|discriminate]. injection H as <-.
    now apply handleMinTotalChange_consistent.
Qed.

Lemma step_rendered (e : Event) (s s' : State) :
  s = initial \/ rendered s ->
  step rt e s = Some s' -> rendered s'.
Proof.
  intros Hs H. unfold step in H.
  destruct (handle rt e s) as [s1|] eqn:E; [|discriminate].
  injection H as <-. apply rerender_rendered.
  eapply handle_consistent; eassumption.
Qed.

Lemma run_rendered (es : list Event) (s s' : State) :
  s = initial \/ rendered s ->
  run rt es s = Some s' -> s' = initial \/ rendered s'.
Proof.
  revert s; induction es as [|e es IH]; intros s Hs H; simpl in H.
  - injection H as <-. exact Hs.
  - destruct (step rt e s) as [s1|] eqn:E; [|discriminate].
    apply (IH s1); [|assumption]. right. eapply step_rendered; eassumption.
Qed.

Lemma reachable_rendered (s : State) :
  reachable rt s -> s = initial \/ rendered s.
Proof.
  intros [es H]. eapply run_rendered; [|eassumption]. now left.
Qed.

Lemma reachable_consistent (s : State) :
  reachable rt s -> consistent s.
Proof.
  intros R. destruct (reachable_rendered R) as [->|[C _ _]];
    [apply initial_consistent|assumption].
Qed.

Lemma reachable_mounted (s : State) :
  reachable rt s -> mounted s = true -> rendered s.
Proof.
  intros R M. destruct (reachable_rendered R) as [->|H];
    [discriminate|assumption].
Qed.

Lemma run_app (es1 es2 : list Event) (s : State) :
  run rt (es1 ++ es2) s =
  match run rt es1 s with
  | Some s1 => run rt es2 s1
  | None => None
  end.
Proof.
  revert s; induction es1 as [|e es1 IH]; intros s; simpl; [reflexivity|].
  destruct (step rt e s); [apply IH|reflexivity].
Qed.

Lemma reachable_step (e : Event) (s s' : State) :
  reachable rt s -> step rt e s = Some s' ->
  reachable rt s'.
Proof.
  intros [es H] S. exists (es ++ [e]). rewrite run_app, H. simpl. now rewrite S.
Qed.

(** A request that is awaited was sent by a mounted component. *)
Lemma awaiting_mounted (r : nat) (s : State) :
  reachable rt s -> awaiting r s = true -> mounted s = true.
Proof.
  intros R A. destruct (reachable_rendered R) as [->|H].
  - discriminate.
  - now apply rendered_mounted.
Qed.

(** The fields a render and its effect leave alone. *)
Lemma rerender_frame (s : State) :
  let s' := rerender rt s in
  orders s' = orders s /\ error s' = error s /\ console s' = console s /\
  search s' = search s /\ statusFilter s' = statusFilter s /\
  minTotal s' = minTotal s.
Proof.
  unfold rerender.
  destruct (render_frame rt s)
    as (Ho & _ & He & Hse & Hsf & Hmt & _ & _ & _ & Hc).
  destruct (useEffect_frame (snd (render rt s)))
    as (Ho' & He' & Hse' & Hsf' & Hmt' & _ & _ & _ & Hc' & _).
  simpl. repeat split; congruence.
Qed.

(** The requests after a render and its effect. *)
Lemma rerender_requests (s : State) :
  let s' := rerender rt s in
  let changed :=
    match effectDeps s with
    | Some m => negb (Nat.eqb m (List.length (elems (orders s))))
    | None => true
    end in
  (changed = true ->
     loading s' = true /\ issued s' = S (issued s) /\
     inflight s' = inflight s ++ [issued s]) /\
  (changed = false ->
     loading s' = loading s /\ issued s' = issued s /\
     inflight s' = inflight s).
Proof.
  unfold rerender.
  destruct (render_frame rt s)
    as (Ho & Hl & _ & _ & _ & _ & Hed & Hi & Hfl & _).
  pose proof (useEffect_runs (snd (render rt s))) as H.
  simpl in H. rewrite Hed, Ho, Hl, Hi, Hfl in H. exact H.
Qed.

End Reachability.

(** ** The derived view *)

(** C2. The orders are loaded, then the status filter is set to "paid":
    the rows on screen are still the ones computed for "all", not the
    result of the pipeline on the current orders and criteria.  The memo
    of [filteredOrders] depends on [orders] alone. *)
Theorem stale_criteria_after_status_change :
  exists s,
    run Sample.runtime
        [Mount; Settle 0 (Sample.ok [Sample.alice; Sample.bob]);
         ChangeStatus (only paid)] initial = Some s /\
    statusFilter s = only paid /\
    elems (orders s) = [Sample.alice; Sample.bob] /\
    visibleOrders (view Sample.runtime s) = [Sample.bob; Sample.alice] /\
    filteredOrders Sample.runtime (elems (orders s)) (search s)
                   (statusFilter s) (minTotal s) = [Sample.alice].
Proof.
  eexists. split; [vm_compute; reflexivity|].
  repeat split.
Qed.

(** C4. The revenue is the sum of [total] over the filtered and sorted
    orders, added from [0] in their order; with no orders the view is empty
    and the revenue is [0]; and in every reachable state the revenue on
    screen is that sum over the rows on screen. *)
Theorem totalRevenue_sums_visibleOrders
        (rt : Runtime) (O : list Order)
        (search : option string) (f : StatusFilter) (m : NumberOrString)
        (s : State) :
  reachable rt s ->
  (let V := filteredOrders rt O search f m in
   totalRevenue V = fold_left PrimFloat.add (map total V) 0%float) /\
  (filteredOrders rt [] search f m = [] /\
   totalRevenue (filteredOrders rt [] search f m) = 0%float) /\
  shownRevenue (view rt s)
  = fold_left PrimFloat.add
              (map total (visibleOrders (view rt s))) 0%float.
Proof.
  intros R. split; [|split].
  - apply fold_left_map_total.
  - split; reflexivity.
  - destruct (render_memos rt (reachable_consistent R))
      as (kept & _ & _ & _ & Hv & _).
    unfold view. rewrite Hv. simpl. apply fold_left_map_total.
Qed.

Lemma totalRevenue_sums_visibleOrders_witness :
  (let V := filteredOrders Sample.runtime [Sample.alice; Sample.bob]
                           None all (Str "") in
   totalRevenue V = fold_left PrimFloat.add (map total V) 0%float) /\
  (filteredOrders Sample.runtime [] None all (Str "") = [] /\
   totalRevenue (filteredOrders Sample.runtime [] None all (Str ""))
   = 0%float) /\
  shownRevenue (view Sample.runtime initial)
  = fold_left PrimFloat.add
      (map total (visibleOrders (view Sample.runtime initial))) 0%float.
Proof.
  apply (@totalRevenue_sums_visibleOrders Sample.runtime
           [Sample.alice; Sample.bob] None all (Str "") initial).
  exists []. reflexivity.
Defined.

(** ** The load lifecycle *)

Section Lifecycle.

Variable rt : Runtime.

Lemma step_settle (r : nat) (res : Settled Response) (s : State) :
  mounted s = true -> awaiting r s = true ->
  step rt (Settle r res) s =
  Some (rerender rt (snd (fetchOrders_settle res (settled r s)))).
Proof.
  intros M A. unfold step. simpl. now rewrite M, A.
Qed.

Lemma awaiting_In (r : nat) (s : State) :
  awaiting r s = true <-> In r (inflight s).
Proof.
  unfold awaiting. rewrite existsb_exists. split.
  - intros (x & Hx & E). apply Nat.eqb_eq in E. now subst.
  - intros H. exists r. split; [assumption|apply Nat.eqb_refl].
Qed.

(** What the failure of a load does to a rendered state. *)
Lemma step_failure (r : nat) (res : Settled Response) (err : string) (s : State) :
  rendered s -> awaiting r s = true -> fails res err ->
  exists s',
    step rt (Settle r res) s = Some s' /\
    orders s' = orders s /\ error s' = Some failedMessage /\
    loading s' = false /\
    console s' = console s ++ [err] /\ issued s' = issued s /\
    inflight s' = remove Nat.eq_dec r (inflight s).
Proof.
  intros Rs A F. eexists. split.
  { apply step_settle; [now apply rendered_mounted|assumption]. }
  rewrite (settle_failure _ F). simpl.
  match goal with |- context [rerender _ ?x] => set (s1 := x) end.
  destruct (rerender_frame rt s1) as (Ho & He & Hc & _).
  destruct (rerender_requests rt s1) as [_ Hq].
  destruct Rs as [_ Hed _].
  assert (Q : match effectDeps s1 with
              | Some m => negb (Nat.eqb m (List.length (elems (orders s1))))
              | None => true
              end = false).
  { subst s1. destruct s; simpl in *. rewrite Hed. now rewrite Nat.eqb_refl. }
  destruct (Hq Q) as (Hl & Hi & Hfl).
  rewrite Ho, He, Hc, Hl, Hi, Hfl. subst s1. destruct s; repeat split.
Qed.

(** What the success of a load does to a rendered state. *)
Lemma step_success (r : nat) (data : list Order) (s : State) :
  rendered s -> awaiting r s = true ->
  exists s',
    step rt (Settle r (Fulfilled (mkResponse (Fulfilled data)))) s
    = Some s' /\
    elems (orders s') = data /\ error s' = None /\ console s' = console s /\
    (let changed :=
       negb (Nat.eqb (List.length data) (List.length (elems (orders s)))) in
     loading s' = changed /\
     issued s' = (if changed then S (issued s) else issued s) /\
     inflight s' = remove Nat.eq_dec r (inflight s)
                   ++ (if changed then [issued s] else [])).
Proof.
  intros Rs A. eexists. split.
  { apply step_settle; [now apply rendered_mounted|assumption]. }
  rewrite settle_success. simpl.
  match goal with |- context [rerender _ ?x] => set (s1 := x) end.
  destruct (rerender_frame rt s1) as (Ho & He & Hc & _).
  destruct (rerender_requests rt s1) as [Hq1 Hq0].
  destruct Rs as [_ Hed _].
  assert (Q : match effectDeps s1 with
              | Some m => negb (Nat.eqb m (List.length (elems (orders s1))))
              | None => true
              end
              = negb (Nat.eqb (List.length data)
                              (List.length (elems (orders s))))).
  { subst s1. destruct s; simpl in *. rewrite Hed. now rewrite Nat.eqb_sym. }
  rewrite Ho, He, Hc.
  destruct (negb (Nat.eqb (List.length data) _)).
  - destruct (Hq1 Q) as (Hl & Hi & Hfl). rewrite Hl, Hi, Hfl.
    subst s1. destruct s; repeat split.
  - destruct (Hq0 Q) as (Hl & Hi & Hfl). rewrite Hl, Hi, Hfl.
    subst s1. destruct s; simpl. rewrite app_nil_r. repeat split.
Qed.

End Lifecycle.

Section LifecycleClaims.

Variable rt : Runtime.

(** C5. Whatever error the order source raises during a load (the request
    is rejected, or the body does not parse), the chain of callbacks ends
    fulfilled: the error is caught.  It is handed to [console.error], the
    state shows the static message and not the error, and no request is
    sent in reply: the count of requests is unchanged and the failed one
    leaves the set of pending ones. *)
Theorem load_failure_caught_logged_static
        (r : nat) (res : Settled Response) (err : string) (s : State) :
  reachable rt s -> awaiting r s = true -> fails res err ->
  fst (fetchOrders_settle res (settled r s)) = Fulfilled tt /\
  exists s',
    step rt (Settle r res) s = Some s' /\
    console s' = console s ++ [err] /\
    error s' = Some failedMessage /\
    loading s' = false /\
    issued s' = issued s /\
    inflight s' = remove Nat.eq_dec r (inflight s).
Proof.
  intros R A F. split.
  - now rewrite (@settle_failure res err _ F).
  - pose proof (@reachable_mounted rt s R (@awaiting_mounted rt r s R A)) as Rs.
    destruct (@step_failure rt r res err s Rs A F)
      as (s' & Hs & _ & He & Hl & Hc & Hi & Hfl).
    exists s'. repeat split; assumption.
Qed.

(** C7, as the code has it. An event sends a request exactly when it is
    the mount, a call of [refresh], or a successful load that changes the
    number of orders (the effect depends on [orders.length]); a change of
    the search text, of the status filter or of the minimum total, and with
    it any change in the size of the derived view, sends none. *)
Theorem load_issued_on_mount_refresh_or_length_change
        (e : Event) (s s' : State) :
  reachable rt s -> step rt e s = Some s' ->
  issued s' = (if loads e s then S (issued s) else issued s).
Proof.
  intros R H.
  destruct e as [| |r res|v|v|v]; unfold step in H; simpl in H.
  - destruct (mounted s) eqn:M; [discriminate|]. injection H as <-.
    destruct (@reachable_rendered rt s R) as [->|Rs].
    + reflexivity.
    + apply rendered_mounted in Rs. congruence.
  - destruct (mounted s) eqn:M; [|discriminate]. injection H as <-.
    destruct (@reachable_mounted rt s R M) as [_ Hed _].
    destruct (rerender_requests rt (refresh s)) as [_ Hq].
    simpl. destruct Hq as (_ & Hi & _).
    + destruct s; simpl in *. now rewrite Hed, Nat.eqb_refl.
    + rewrite Hi. now destruct s.
  - destruct (mounted s) eqn:M; [|discriminate].
    destruct (awaiting r s) eqn:A; [|discriminate]. simpl in H.
    pose proof (@reachable_mounted rt s R M) as Rs.
    destruct (settle_cases res) as [[data ->]|[err F]].
    + destruct (@step_success rt r data s Rs A)
        as (s2 & Hs & _ & _ & _ & _ & Hi & _).
      rewrite (@step_settle rt r _ s M A) in Hs.
      assert (s2 = s') by congruence. subst s2.
      rewrite Hi. simpl. now destruct (negb _).
    + destruct (@step_failure rt r res err s Rs A F)
        as (s2 & Hs & _ & _ & _ & _ & Hi & _).
      rewrite (@step_settle rt r _ s M A) in Hs.
      assert (s2 = s') by congruence. subst s2.
      rewrite Hi. destruct F as [->| ->]; reflexivity.
  - destruct (mounted s) eqn:M; [|discriminate]. injection H as <-.
    destruct (@reachable_mounted rt s R M) as [_ Hed _].
    destruct (rerender_requests rt (setSearch (Some v) s)) as [_ Hq].
    simpl. destruct Hq as (_ & Hi & _).
    + destruct s; simpl in *. now rewrite Hed, Nat.eqb_refl.
    + rewrite Hi. now destruct s.
  - destruct (mounted s) eqn:M; [|discriminate]. injection H as <-.
    destruct (@reachable_mounted rt s R M) as [_ Hed _].
    destruct (rerender_requests rt (setStatusFilter v s)) as [_ Hq].
    simpl. destruct Hq as (_ & Hi & _).
    + destruct s; simpl in *. now rewrite Hed, Nat.eqb_refl.
    + rewrite Hi. now destruct s.
  - destruct (mounted s) eqn:M; [|discriminate]. injection H as <-.
    destruct (@reachable_mounted rt s R M) as [_ Hed _].
    destruct (rerender_requests rt
                (handleMinTotalChange rt v s)) as [_ Hq].
    simpl. destruct Hq as (_ & Hi & _).
    + unfold handleMinTotalChange.
      destruct (String.eqb v ""); [|destruct (negb _)];
        destruct s; simpl in *; now rewrite Hed, Nat.eqb_refl.
    + rewrite Hi. unfold handleMinTotalChange.
      destruct (String.eqb v ""); [|destruct (negb _)]; now destruct s.
Qed.

(** C8. When a load succeeds, the callbacks leave the store ready with
    the orders that were fetched: the orders are the fetched ones, the
    error message is cleared whatever it was, and the loading flag is
    down.  That state is rendered; after the render and its effect the
    orders and the cleared error are still there. *)
Theorem load_success_gives_ready
        (r : nat) (data : list Order) (s : State) :
  reachable rt s -> awaiting r s = true ->
  active (snd (fetchOrders_settle (Fulfilled (mkResponse (Fulfilled data)))
                                  (settled r s)))
         (Ready data) /\
  exists s',
    step rt (Settle r (Fulfilled (mkResponse (Fulfilled data)))) s
    = Some s' /\
    elems (orders s') = data /\ error s' = None /\
    (forall message, ~ active s' (Failed message)).
Proof.
  intros R A. pose proof (@awaiting_mounted rt r s R A) as M. split.
  - rewrite settle_success. simpl. repeat split.
    unfold mounted in *. now destruct s.
  - destruct (@step_success rt r data s (@reachable_mounted rt s R M) A)
      as (s' & Hs & Ho & He & _).
    exists s'. repeat split; try assumption.
    intros message. simpl. congruence.
Qed.

(** C9. Two loads are pending.  If the second one answers first and the
    first one last, the orders are those of the first: the answer that
    arrives last decides, whichever request was sent first.  If the last
    answer is a failure the error message is set and the orders stay
    those of the earlier answer.  Calling [refresh] cancels nothing: both
    requests remain pending. *)
Theorem last_resolved_wins
        (r1 r2 : nat) (d1 d2 : list Order) (s : State) :
  reachable rt s ->
  awaiting r1 s = true -> awaiting r2 s = true -> r1 <> r2 ->
  (exists s',
     run rt
         [Settle r2 (Fulfilled (mkResponse (Fulfilled d2)));
          Settle r1 (Fulfilled (mkResponse (Fulfilled d1)))] s = Some s' /\
     elems (orders s') = d1 /\ error s' = None) /\
  (forall res err, fails res err ->
   exists s',
     run rt
         [Settle r2 (Fulfilled (mkResponse (Fulfilled d2)));
          Settle r1 res] s = Some s' /\
     elems (orders s') = d2 /\ error s' = Some failedMessage) /\
  (exists s',
     step rt Refresh s = Some s' /\
     awaiting r1 s' = true /\ awaiting r2 s' = true /\
     awaiting (issued s) s' = true).
Proof.
  intros R A1 A2 Hne.
  pose proof (@awaiting_mounted rt r1 s R A1) as M.
  pose proof (@reachable_mounted rt s R M) as Rs.
  destruct (@step_success rt r2 d2 s Rs A2)
    as (s2 & Hs2 & Ho2 & He2 & _ & _ & _ & Hfl2).
  pose proof (@reachable_step rt _ s s2 R Hs2) as R2.
  assert (A1' : awaiting r1 s2 = true).
  { apply awaiting_In. rewrite Hfl2. apply in_or_app. left.
    apply in_in_remove; [assumption|now apply awaiting_In]. }
  pose proof (@reachable_mounted rt s2 R2 (@awaiting_mounted rt r1 s2 R2 A1')) as Rs2.
  split; [|split].
  - destruct (@step_success rt r1 d1 s2 Rs2 A1')
      as (s1 & Hs1 & Ho1 & He1 & _).
    exists s1. simpl. rewrite Hs2, Hs1. repeat split; assumption.
  - intros res err F.
    destruct (@step_failure rt r1 res err s2 Rs2 A1' F)
      as (s1 & Hs1 & Ho1 & He1 & _).
    exists s1. simpl. rewrite Hs2, Hs1. repeat split; congruence.
  - unfold step. simpl. rewrite M. eexists. split; [reflexivity|].
    destruct (rerender_requests rt (refresh s)) as [_ Hq].
    destruct Rs as [_ Hed _].
    destruct Hq as (_ & _ & Hfl).
    { destruct s; simpl in *. now rewrite Hed, Nat.eqb_refl. }
    rewrite !awaiting_In, Hfl.
    apply awaiting_In in A1, A2.
    destruct s; simpl in *.
    repeat split; apply in_or_app; auto. right. now left.
Qed.

(** C10. When a load fails, the orders stay the object they were: the
    list fetched by the last successful load is still the one in state. *)
Theorem load_failure_keeps_orders
        (r : nat) (res : Settled Response) (err : string) (s : State) :
  mounted s = true -> awaiting r s = true -> fails res err ->
  exists s',
    step rt (Settle r res) s = Some s' /\
    orders s' = orders s.
Proof.
  intros M A F. eexists. split; [now apply step_settle|].
  destruct (rerender_frame rt
              (snd (fetchOrders_settle res (settled r s)))) as (Ho & _).
  rewrite Ho, (@settle_failure res err _ F). now destruct s.
Qed.

(** C6, as the code has it. In every reachable state at least one of the
    four load states is active, and two different ones are active together
    only when they are [Loading] and [Failed]; the message of [Failed] is
    always the static one. *)
Theorem load_states_exclusive_but_loading_failed (s : State) :
  reachable rt s ->
  (exists l, active s l) /\
  (forall l1 l2, active s l1 -> active s l2 ->
     l1 = l2 \/
     (l1 = Loading /\ exists message, l2 = Failed message) \/
     (l2 = Loading /\ exists message, l1 = Failed message)) /\
  (forall message, active s (Failed message) -> message = failedMessage).
Proof.
  intros R.
  assert (I : mounted s = false -> loading s = false /\ error s = None).
  { intros M. destruct (@reachable_rendered rt s R) as [->|Rs]; [now split|].
    apply rendered_mounted in Rs. congruence. }
  destruct (@reachable_consistent rt s R) as [Herr _ _ _].
  split; [|split].
  - destruct (mounted s) eqn:M; [|now exists Idle].
    destruct (loading s) eqn:L; [now exists Loading|].
    destruct (error s) as [message|] eqn:E; [now exists (Failed message)|].
    exists (Ready (elems (orders s))). simpl. now rewrite M, L, E.
  - intros [| |x1|m1] [| |x2|m2]; simpl; intros H1 H2;
      try (left; reflexivity);
      try (destruct (I H1) as [? ?]; congruence);
      try (destruct (I H2) as [? ?]; congruence);
      try (destruct H1 as (? & ? & ? & ?); congruence);
      try (destruct H2 as (? & ? & ? & ?); congruence).
    + right. left. split; [reflexivity|now exists m2].
    + destruct H1 as (_ & _ & _ & <-), H2 as (_ & _ & _ & <-). now left.
    + right. right. split; [reflexivity|now exists m1].
    + left. congruence.
  - intros message H. simpl in H. destruct Herr; congruence.
Qed.

End LifecycleClaims.

(** ** Sample runs *)

Lemma firstLoad_reachable : reachable Sample.runtime Sample.firstLoad.
Proof. exists [Mount]. reflexivity. Defined.

Lemma twoLoads_reachable : reachable Sample.runtime Sample.twoLoads.
Proof. exists [Mount; Refresh]. reflexivity. Defined.

Lemma load_failure_caught_logged_static_witness :
  fst (fetchOrders_settle (Rejected "boom") (settled 0 Sample.firstLoad))
  = Fulfilled tt /\
  exists s',
    step Sample.runtime (Settle 0 (Rejected "boom")) Sample.firstLoad
    = Some s' /\
    console s' = console Sample.firstLoad ++ ["boom"] /\
    error s' = Some failedMessage /\
    loading s' = false /\
    issued s' = issued Sample.firstLoad /\
    inflight s' = remove Nat.eq_dec 0 (inflight Sample.firstLoad).
Proof.
  apply (@load_failure_caught_logged_static Sample.runtime
           0 (Rejected "boom") "boom" Sample.firstLoad).
  - exact firstLoad_reachable.
  - reflexivity.
  - left. reflexivity.
Defined.

(** C6, as stated, fails: after a failed load and a call of [refresh] the
    loading flag is up while the error message is still set. *)
Lemma loading_while_failed :
  exists s,
    run Sample.runtime [Mount; Settle 0 (Rejected "boom"); Refresh] initial
    = Some s /\
    loading s = true /\ error s = Some failedMessage /\
    active s Loading /\ active s (Failed failedMessage).
Proof.
  eexists. split; [vm_compute; reflexivity|]. repeat split.
Qed.

Lemma load_states_exclusive_but_loading_failed_witness :
  (exists l, active Sample.twoLoads l) /\
  (forall l1 l2, active Sample.twoLoads l1 -> active Sample.twoLoads l2 ->
     l1 = l2 \/
     (l1 = Loading /\ exists message, l2 = Failed message) \/
     (l2 = Loading /\ exists message, l1 = Failed message)) /\
  (forall message, active Sample.twoLoads (Failed message) ->
     message = failedMessage).
Proof.
  apply (@load_states_exclusive_but_loading_failed Sample.runtime
           Sample.twoLoads).
  exact twoLoads_reachable.
Defined.

(** C7, as stated, fails: the first load brings two orders where there
    were none, and a second request is sent though [refresh] was not
    called. *)
Lemma load_issued_without_refresh :
  exists s0 s1,
    run Sample.runtime [Mount] initial = Some s0 /\
    step Sample.runtime (Settle 0 (Sample.ok [Sample.alice; Sample.bob]))
         s0 = Some s1 /\
    issued s0 = 1 /\ issued s1 = 2 /\
    inflight s1 = [1] /\ loading s1 = true.
Proof.
  eexists. eexists. split; [vm_compute; reflexivity|].
  split; [vm_compute; reflexivity|]. repeat split.
Qed.

Lemma load_issued_on_mount_refresh_or_length_change_witness :
  issued (rerender Sample.runtime
            (setStatusFilter (only paid) Sample.firstLoad))
  = (if loads (ChangeStatus (only paid)) Sample.firstLoad
     then S (issued Sample.firstLoad) else issued Sample.firstLoad).
Proof.
  apply (@load_issued_on_mount_refresh_or_length_change Sample.runtime
           (ChangeStatus (only paid)) Sample.firstLoad).
  - exact firstLoad_reachable.
  - reflexivity.
Defined.

Lemma load_success_gives_ready_witness :
  active (snd (fetchOrders_settle (Sample.ok [Sample.alice; Sample.bob])
                                  (settled 0 Sample.firstLoad)))
         (Ready [Sample.alice; Sample.bob]) /\
  exists s',
    step Sample.runtime (Settle 0 (Sample.ok [Sample.alice; Sample.bob]))
         Sample.firstLoad = Some s' /\
    elems (orders s') = [Sample.alice; Sample.bob] /\ error s' = None /\
    (forall message, ~ active s' (Failed message)).
Proof.
  apply (@load_success_gives_ready Sample.runtime
           0 [Sample.alice; Sample.bob] Sample.firstLoad).
  - exact firstLoad_reachable.
  - reflexivity.
Defined.

Lemma last_resolved_wins_witness :
  (exists s',
     run Sample.runtime
         [Settle 1 (Fulfilled (mkResponse (Fulfilled [Sample.bob])));
          Settle 0 (Fulfilled (mkResponse (Fulfilled [Sample.alice])))]
         Sample.twoLoads = Some s' /\
     elems (orders s') = [Sample.alice] /\ error s' = None) /\
  (forall res err, fails res err ->
   exists s',
     run Sample.runtime
         [Settle 1 (Fulfilled (mkResponse (Fulfilled [Sample.bob])));
          Settle 0 res] Sample.twoLoads = Some s' /\
     elems (orders s') = [Sample.bob] /\ error s' = Some failedMessage) /\
  (exists s',
     step Sample.runtime Refresh Sample.twoLoads = Some s' /\
     awaiting 0 s' = true /\ awaiting 1 s' = true /\
     awaiting (issued Sample.twoLoads) s' = true).
Proof.
  apply (@last_resolved_wins Sample.runtime
           0 1 [Sample.alice] [Sample.bob] Sample.twoLoads).
  - exact twoLoads_reachable.
  - reflexivity.
  - reflexivity.
  - discriminate.
Defined.

Lemma load_failure_keeps_orders_witness :
  exists s',
    step Sample.runtime
         (Settle 0 (Fulfilled (mkResponse (Rejected "Unexpected token"))))
         Sample.firstLoad = Some s' /\
    orders s' = orders Sample.firstLoad.
Proof.
  apply (@load_failure_keeps_orders Sample.runtime
           0 (Fulfilled (mkResponse (Rejected "Unexpected token")))
           "Unexpected token" Sample.firstLoad).
  - reflexivity.
  - reflexivity.
  - right. reflexivity.
Defined.

(** ** A state that is rendered stays as it is under one more render *)

Lemma rerender_fixpoint (rt : Runtime) (s : State) :
  rendered s -> rerender rt s = s.
Proof.
  intros [[_ _ _ Hm] Hed [kept Hk]].
  unfold rerender, render, useMemo_filteredOrders, useMemo_totalRevenue,
    useEffect_fetch.
  destruct s as [o l e se sf mt ed mf mr nr i fl c]; simpl in *.
  subst mf ed. destruct Hm as [_ ->].
  repeat (rewrite Nat.eqb_refl; simpl). reflexivity.
Qed.

Lemma rerender_idempotent (rt : Runtime) (s : State) :
  consistent s ->
  rerender rt (rerender rt s) = rerender rt s.
Proof.
  intros C. apply rerender_fixpoint. now apply rerender_rendered.
Qed.

(** Outside the data model: a total that is [NaN] compares neither below
    nor above the minimum, and the order is kept. *)
Example nan_total_is_kept :
  keep Sample.runtime None all (Num 15%float)
       (mkOrder 4 "Dave" PrimFloat.nan paid "2024-01-03T00:00:00Z") = true /\
  JsNumber.ge PrimFloat.nan 15%float = false.
Proof. split; reflexivity. Qed.

(** ** The scenarios of the specification *)

Example scenario_A :
  map id (filteredOrders Sample.runtime [Sample.alice; Sample.bob]
                         None all (Str "")) = [2; 1]%Z /\
  totalRevenue (filteredOrders Sample.runtime [Sample.alice; Sample.bob]
                               None all (Str "")) = 30%float.
Proof. split; reflexivity. Qed.

Example scenario_B :
  map id (filteredOrders Sample.runtime [Sample.alice; Sample.bob]
                         None (only paid) (Str "")) = [1]%Z /\
  totalRevenue (filteredOrders Sample.runtime [Sample.alice; Sample.bob]
                               None (only paid) (Str "")) = 10%float.
Proof. split; reflexivity. Qed.

Example scenario_C :
  map id (filteredOrders Sample.runtime [Sample.alice; Sample.bob]
                         (Some "bo") all (Str "")) = [2]%Z.
Proof. reflexivity. Qed.

Example scenario_D :
  map id (filteredOrders Sample.runtime [Sample.alice; Sample.bob]
                         None all (Num 15%float)) = [2]%Z /\
  map id (filteredOrders Sample.runtime [Sample.alice; Sample.bob]
                         None all (Str "15")) = [2]%Z /\
  totalRevenue (filteredOrders Sample.runtime [Sample.alice; Sample.bob]
                               None all (Num 15%float)) = 20%float.
Proof. repeat split; reflexivity. Qed.

Example scenario_E :
  exists s,
    run Sample.runtime [Mount; Settle 0 (Rejected "offline")] initial
    = Some s /\
    error s = Some "Failed to load orders" /\ loading s = false /\
    console s = ["offline"] /\ issued s = 1.
Proof. eexists. split; [vm_compute; reflexivity|]. repeat split. Qed.

(** ** A change of criteria and the rows on screen *)

Section StaleView.

Variable rt : Runtime.

Lemma criteria_handlers (e : Event) (s s1 : State) :
  match e with
  | ChangeSearch _ | ChangeStatus _ | ChangeMinTotal _ => True
  | _ => False
  end ->
  handle rt e s = Some s1 -> criteriaOnly s s1.
Proof.
  destruct e as [| |r res|v|v|v]; simpl; intros []; intros H;
    destruct (mounted s); try discriminate; injection H as <-;
    unfold criteriaOnly, handleMinTotalChange;
    try (destruct (String.eqb v ""); [|destruct (negb _)]);
    destruct s; simpl; repeat split.
Qed.

Lemma criteriaOnly_view (s s1 : State) :
  rendered s -> criteriaOnly s s1 ->
  rerender rt s1 = s1 /\
  view rt s1 = view rt s.
Proof.
  intros [[_ _ _ Hm] Hed [kept Hk]]
         (Ho & Hl & He & Hd & Hf & Hr & Hn & Hi & Hfl & Hc).
  unfold view, rerender, render, useMemo_filteredOrders, useMemo_totalRevenue,
    useEffect_fetch.
  destruct s as [o l e se sf mt ed mf mr nr i fl c],
           s1 as [o1 l1 e1 se1 sf1 mt1 ed1 mf1 mr1 nr1 i1 fl1 c1];
    simpl in *.
  subst. destruct Hm as [_ ->].
  repeat (rewrite Nat.eqb_refl; simpl). split; reflexivity.
Qed.

(** Whatever the input that changes, the rows and the revenue on screen
    after the change are those from before it. *)
Lemma criteria_change_keeps_view (e : Event) (s s' : State) :
  reachable rt s ->
  match e with
  | ChangeSearch _ | ChangeStatus _ | ChangeMinTotal _ => True
  | _ => False
  end ->
  step rt e s = Some s' ->
  view rt s' = view rt s.
Proof.
  intros R He H. unfold step in H.
  destruct (handle rt e s) as [s1|] eqn:E; [|discriminate].
  injection H as <-.
  assert (M : mounted s = true).
  { destruct e; simpl in E, He; try contradiction;
      destruct (mounted s); congruence. }
  pose proof (@reachable_mounted rt s R M) as Rs.
  destruct (criteriaOnly_view Rs (criteria_handlers e s He E)) as [-> Hv].
  exact Hv.
Qed.

End StaleView.

(** * Further properties of the pipeline *)

Lemma filter_permutation (A : Type) (p : A -> bool) (l l' : list A) :
  Permutation l l' -> Permutation (filter p l) (filter p l').
Proof.
  induction 1 as [|x l l' H IH|x y l|l l' l'' H1 IH1 H2 IH2]; simpl.
  - constructor.
  - destruct (p x); [now constructor|assumption].
  - destruct (p x), (p y); try reflexivity. apply perm_swap.
  - now transitivity (filter p l').
Qed.

(** Two arrangements of the same orders by descending timestamp are the
    same list when no two orders share a timestamp. *)
Lemma sorted_permutation_unique (l l' : list Order) :
  NoDup (map createdAt l) ->
  StronglySorted newer_or_same l -> StronglySorted newer_or_same l' ->
  Permutation l l' -> l = l'.
Proof.
  revert l'; induction l as [|a l IH]; intros l' Hnd Hs Hs' Hp.
  - apply Permutation_nil in Hp. now subst.
  - destruct l' as [|b l'].
    { apply Permutation_sym, Permutation_nil in Hp. discriminate. }
    inversion Hnd as [|? ? Hna Hnd']; subst.
    apply StronglySorted_inv in Hs, Hs'.
    destruct Hs as [Hs Ha], Hs' as [Hs' Hb].
    assert (E : a = b).
    { assert (Ia : In a (b :: l'))
        by (apply (Permutation_in _ Hp); now left).
      assert (Ib : In b (a :: l))
        by (apply (Permutation_in _ (Permutation_sym Hp)); now left).
      destruct Ia as [->|Ia]; [reflexivity|].
      destruct Ib as [->|Ib]; [reflexivity|].
      rewrite Forall_forall in Ha, Hb.
      pose proof (Ha _ Ib) as H1. pose proof (Hb _ Ia) as H2.
      unfold newer_or_same in H1, H2.
      pose proof (String.leb_antisym _ _ H1 H2) as Eq.
      exfalso. apply Hna. rewrite <- Eq. now apply in_map. }
    subst b. f_equal. apply IH; try assumption.
    now apply Permutation_cons_inv in Hp.
Qed.

Lemma filteredOrders_sorted (rt : Runtime)
      (O : list Order) (search : option string) (f : StatusFilter)
      (m : NumberOrString) :
  StronglySorted newer_or_same (filteredOrders rt O search f m).
Proof.
  apply Sorted_StronglySorted; [exact newer_or_same_trans|].
  apply sort_sorted; [exact comparator_below | exact comparator_above].
Qed.

Lemma filteredOrders_perm (rt : Runtime)
      (O : list Order) (search : option string) (f : StatusFilter)
      (m : NumberOrString) :
  Permutation (filteredOrders rt O search f m)
              (filter (keep rt search f m) O).
Proof. apply sort_perm. Qed.

Lemma NoDup_map_filter (A B : Type) (g : A -> B) (p : A -> bool) (l : list A) :
  NoDup (map g l) -> NoDup (map g (filter p l)).
Proof.
  induction l as [|x l IH]; simpl; intros H; [constructor|].
  inversion H as [|? ? Hn Hd]; subst.
  destruct (p x); simpl; [|now apply IH].
  constructor; [|now apply IH].
  intros Hin. apply Hn. apply in_map_iff in Hin.
  destruct Hin as (y & Ey & Hy). apply filter_In in Hy.
  apply in_map_iff. exists y. tauto.
Qed.

Section PipelineExtras.

Variable rt : Runtime.

Lemma same_ignoring_case_truthy (s1 s2 : string) :
  same_ignoring_case s1 s2 -> JsString.truthy s1 = JsString.truthy s2.
Proof. destruct s1, s2; simpl; intros H; try reflexivity; contradiction. Qed.

(** X1. The search sees the text typed only through its lower-cased
    form: two search texts, both empty or both not, that the runtime's
    [toLowerCase] turns into the same text give the same rows, whatever
    the orders and the other criteria.  In particular two ASCII search
    texts with the same letters, each in either case, give the same rows
    (the runtime turning A to Z into a to z). *)
Theorem search_ignores_case_of_text
        (O : list Order) (s1 s2 : string) (f : StatusFilter) (m : NumberOrString) :
  (JsString.truthy s1 = JsString.truthy s2 ->
   toLowerCase rt s1 = toLowerCase rt s2 ->
   filteredOrders rt O (Some s1) f m = filteredOrders rt O (Some s2) f m) /\
  (lowers_ascii rt ->
   JsString.ascii_text s1 = true -> JsString.ascii_text s2 = true ->
   same_ignoring_case s1 s2 ->
   filteredOrders rt O (Some s1) f m = filteredOrders rt O (Some s2) f m).
Proof.
  assert (G : JsString.truthy s1 = JsString.truthy s2 ->
              toLowerCase rt s1 = toLowerCase rt s2 ->
              filteredOrders rt O (Some s1) f m
              = filteredOrders rt O (Some s2) f m).
  { intros T E. unfold filteredOrders. f_equal. apply filter_ext. intros o.
    unfold keep. now rewrite T, E. }
  split; [exact G|].
  intros HL A1 A2 H. apply G.
  - now apply same_ignoring_case_truthy.
  - rewrite (HL s1 A1), (HL s2 A2). now apply lowerAZ_same.
Qed.

(** X2. With nothing typed and "all" selected every order is shown; an
    emptied search box is the same as one never used, and a minimum of
    zero is the same as an empty one. *)
Theorem neutral_criteria_show_every_order (O : list Order) :
  Permutation (filteredOrders rt O None all (Str "")) O /\
  (forall f m, filteredOrders rt O (Some "") f m
               = filteredOrders rt O None f m) /\
  (forall search f, filteredOrders rt O search f (Num 0%float)
                    = filteredOrders rt O search f (Str "")).
Proof.
  split; [|split].
  - rewrite filteredOrders_perm.
    assert (E : filter (keep rt None all (Str "")) O = O).
    { induction O as [|o l IH]; simpl; [reflexivity|]. now rewrite IH. }
    now rewrite E.
  - intros f m. reflexivity.
  - intros search f. unfold filteredOrders. f_equal.
Qed.

Lemma keep_only (search : option string) (st : OrderStatus)
      (m : NumberOrString) (o : Order) :
  keep rt search (only st) m o
  = keep rt search all m o && OrderStatus_eqb (status o) st.
Proof.
  unfold keep.
  destruct (match search with Some _ => _ | None => _ end);
    [reflexivity|].
  destruct (OrderStatus_eqb (status o) st); simpl;
    destruct (truthy_ns m && _); reflexivity.
Qed.

(** X3. The four status views split the view for "all": their numbers of
    rows add up to the number of rows shown for "all". *)
Theorem status_views_partition_all
        (O : list Order) (search : option string) (m : NumberOrString) :
  List.length (filteredOrders rt O search all m)
  = List.length (filteredOrders rt O search (only pending) m)
    + List.length (filteredOrders rt O search (only paid) m)
    + List.length (filteredOrders rt O search (only shipped) m)
    + List.length (filteredOrders rt O search (only cancelled) m).
Proof.
  rewrite !(Permutation_length (filteredOrders_perm _ _ _ _ _)).
  induction O as [|o l IH]; simpl; [reflexivity|].
  rewrite !keep_only.
  destruct (keep rt search all m o); simpl; [|exact IH].
  destruct (status o); simpl; rewrite IH; lia.
Qed.

(** X4. On two orders with different timestamps the comparator is
    antisymmetric: it answers [-1] one way and [1] the other. *)
Theorem comparator_antisymmetric_on_distinct (a b : Order) :
  createdAt a <> createdAt b ->
  (comparator a b = (-1)%Z /\ comparator b a = 1%Z) \/
  (comparator a b = 1%Z /\ comparator b a = (-1)%Z).
Proof.
  intros Hne. unfold comparator, JsString.gt, String.ltb.
  rewrite (String.compare_antisym (createdAt b) (createdAt a)).
  destruct (String.compare (createdAt a) (createdAt b)) eqn:E; simpl.
  - apply String.compare_eq_iff in E. contradiction.
  - now right.
  - now left.
Qed.

(** X5. When no two orders share a timestamp, the rows do not depend on
    the order in which the orders arrive: two lists with the same orders
    give the same rows, in the same order. *)
Theorem rows_independent_of_arrival_order
        (O O' : list Order) (search : option string) (f : StatusFilter)
        (m : NumberOrString) :
  Permutation O O' -> NoDup (map createdAt O) ->
  filteredOrders rt O search f m
  = filteredOrders rt O' search f m.
Proof.
  intros Hp Hnd. apply sorted_permutation_unique.
  - apply (Permutation_NoDup
             (l := map createdAt (filter (keep rt search f m) O))).
    + apply Permutation_map, Permutation_sym, filteredOrders_perm.
    + now apply NoDup_map_filter.
  - apply filteredOrders_sorted.
  - apply filteredOrders_sorted.
  - rewrite !filteredOrders_perm. now apply filter_permutation.
Qed.

End PipelineExtras.

Lemma search_ignores_case_of_text_witness :
  filteredOrders Sample.runtime [Sample.alice; Sample.bob]
                 (Some "BO") all (Str "")
  = filteredOrders Sample.runtime [Sample.alice; Sample.bob]
                   (Some "bo") all (Str "")
  /\
  filteredOrders Sample.runtime [Sample.alice; Sample.bob]
                 (Some "aLiCe") all (Str "")
  = filteredOrders Sample.runtime [Sample.alice; Sample.bob]
                   (Some "Alice") all (Str "").
Proof.
  split.
  - apply (proj1 (@search_ignores_case_of_text Sample.runtime
                    [Sample.alice; Sample.bob] "BO" "bo" all (Str ""))).
    + reflexivity.
    + reflexivity.
  - apply (proj2 (@search_ignores_case_of_text Sample.runtime
                    [Sample.alice; Sample.bob] "aLiCe" "Alice" all (Str ""))).
    + intros s _. reflexivity.
    + reflexivity.
    + reflexivity.
    + unfold same_ignoring_case, same_letter. vm_compute. intuition lia.
Defined.

Lemma comparator_antisymmetric_on_distinct_witness :
  (comparator Sample.alice Sample.bob = (-1)%Z /\
   comparator Sample.bob Sample.alice = 1%Z) \/
  (comparator Sample.alice Sample.bob = 1%Z /\
   comparator Sample.bob Sample.alice = (-1)%Z).
Proof.
  apply (@comparator_antisymmetric_on_distinct Sample.alice Sample.bob).
  discriminate.
Defined.

Lemma rows_independent_of_arrival_order_witness :
  filteredOrders Sample.runtime [Sample.alice; Sample.bob]
                 None all (Str "")
  = filteredOrders Sample.runtime [Sample.bob; Sample.alice]
                   None all (Str "").
Proof.
  apply (@rows_independent_of_arrival_order Sample.runtime
           [Sample.alice; Sample.bob] [Sample.bob; Sample.alice]
           None all (Str "")).
  - apply perm_swap.
  - repeat constructor; simpl; intuition discriminate.
Defined.

(** * Further properties of the load lifecycle *)

Lemma outcome_cases (res : Settled Response) :
  (exists data, res = Fulfilled (mkResponse (Fulfilled data)) /\
                outcome res = Fulfilled data) \/
  (exists err, fails res err /\ outcome res = Rejected err).
Proof.
  destruct res as [[[data|err]]|err].
  - left. now exists data.
  - right. exists err. split; [now right|reflexivity].
  - right. exists err. split; [now left|reflexivity].
Qed.

(** Every chain of callbacks ends fulfilled, with the loading flag down. *)
Lemma every_settlement_ends_loading_aux (res : Settled Response) (s : State) :
  fst (fetchOrders_settle res s) = Fulfilled tt /\
  loading (snd (fetchOrders_settle res s)) = false.
Proof.
  destruct (settle_cases res) as [[data ->]|[err F]].
  - rewrite settle_success. repeat split.
  - rewrite (@settle_failure res err _ F). repeat split.
Qed.

Section LifecycleExtras.

Variable rt : Runtime.

(** What the callbacks of each event leave alone. *)
Lemma handle_frame (e : Event) (s s1 : State) :
  handle rt e s = Some s1 ->
  memoFiltered s1 = memoFiltered s /\ memoRevenue s1 = memoRevenue s /\
  effectDeps s1 = effectDeps s /\
  match e with
  | Mount => mounted s = false /\ s1 = s
  | Refresh => mounted s = true /\ s1 = fetchOrders s
  | Settle r res =>
      mounted s = true /\ awaiting r s = true /\
      s1 = snd (fetchOrders_settle res (settled r s))
  | _ => mounted s = true /\ criteriaOnly s s1
  end.
Proof.
  intros H. destruct e as [| |r res|v|v|v]; simpl in H.
  - destruct (mounted s); [discriminate|]. injection H as <-. repeat split.
  - destruct (mounted s); [|discriminate]. injection H as <-.
    destruct s; repeat split.
  - destruct (mounted s); [|discriminate].
    destruct (awaiting r s); [|discriminate]. injection H as <-.
    destruct (settle_cases res) as [[data ->]|[err F]].
    + rewrite settle_success. destruct s; repeat split.
    + rewrite (@settle_failure res err _ F). destruct s; repeat split.
  - pose proof (@criteria_handlers rt (ChangeSearch v) s s1 I H) as C.
    simpl in H. destruct (mounted s); [|discriminate].
    pose proof C as (_ & _ & _ & Hd & Hf & Hr & _).
    split; [exact Hf|split; [exact Hr|split; [exact Hd|split; [reflexivity|exact C]]]].
  - pose proof (@criteria_handlers rt (ChangeStatus v) s s1 I H) as C.
    simpl in H. destruct (mounted s); [|discriminate].
    pose proof C as (_ & _ & _ & Hd & Hf & Hr & _).
    split; [exact Hf|split; [exact Hr|split; [exact Hd|split; [reflexivity|exact C]]]].
  - pose proof (@criteria_handlers rt (ChangeMinTotal v) s s1 I H) as C.
    simpl in H. destruct (mounted s); [|discriminate].
    pose proof C as (_ & _ & _ & Hd & Hf & Hr & _).
    split; [exact Hf|split; [exact Hr|split; [exact Hd|split; [reflexivity|exact C]]]].
Qed.

(** What one event does to the orders, the error and the console. *)
Lemma step_store (e : Event) (s s' : State) :
  step rt e s = Some s' ->
  elems (orders s') = ordersAfter (elems (orders s)) e /\
  error s' = errorAfter (error s) e /\
  console s' = consoleAfter (console s) e.
Proof.
  intros H. unfold step in H.
  destruct (handle rt e s) as [s1|] eqn:E; [|discriminate].
  injection H as <-.
  destruct (rerender_frame rt s1) as (Ho & He & Hc & _).
  rewrite Ho, He, Hc.
  destruct (handle_frame e s E) as (_ & _ & _ & F).
  destruct e as [| |r res|v|v|v]; simpl.
  - destruct F as [_ ->]. repeat split.
  - destruct F as [_ ->]. destruct s; repeat split.
  - destruct F as (_ & _ & ->).
    destruct (outcome_cases res) as [(data & -> & Eo)|(err & F & Eo)].
    + rewrite settle_success. destruct s; repeat split.
    + rewrite Eo, (@settle_failure res err _ F). destruct s; repeat split.
  - destruct F as (_ & C). destruct C as (-> & _ & -> & _ & _ & _ & _ & _ & _ & ->).
    repeat split.
  - destruct F as (_ & C). destruct C as (-> & _ & -> & _ & _ & _ & _ & _ & _ & ->).
    repeat split.
  - destruct F as (_ & C). destruct C as (-> & _ & -> & _ & _ & _ & _ & _ & _ & ->).
    repeat split.
Qed.

(** X6. Whatever the outcome of a request (orders, a rejected [fetch], a
    body that does not parse), the chain of callbacks ends fulfilled and
    its last step has put the loading flag down; the search text, the
    status filter and the minimum are not touched. *)
Theorem every_settlement_ends_loading (res : Settled Response) (s : State) :
  fst (fetchOrders_settle res s) = Fulfilled tt /\
  loading (snd (fetchOrders_settle res s)) = false /\
  search (snd (fetchOrders_settle res s)) = search s /\
  statusFilter (snd (fetchOrders_settle res s)) = statusFilter s /\
  minTotal (snd (fetchOrders_settle res s)) = minTotal s.
Proof.
  destruct (settle_cases res) as [[data ->]|[err F]].
  - rewrite settle_success. repeat split.
  - rewrite (@settle_failure res err _ F). repeat split.
Qed.

(** X7. After any sequence of events the store is a function of the
    requests that settled, in the order in which they settled: the orders
    are those of the last successful one (none before the first), the
    error is set exactly when the last one to settle failed, and the
    console holds the reasons of the failures, each once, in order.
    Neither the order in which the requests were sent nor any other event
    matters. *)
Theorem store_follows_settlements (es : list Event) (s : State) :
  run rt es initial = Some s ->
  elems (orders s) = fold_left ordersAfter es [] /\
  error s = fold_left errorAfter es None /\
  console s = fold_left consoleAfter es [].
Proof.
  assert (G : forall es s0 s,
             run rt es s0 = Some s ->
             elems (orders s) = fold_left ordersAfter es (elems (orders s0)) /\
             error s = fold_left errorAfter es (error s0) /\
             console s = fold_left consoleAfter es (console s0)).
  { clear es s. induction es as [|e es IH]; intros s0 s H; simpl in H.
    - injection H as <-. repeat split.
    - destruct (step rt e s0) as [s1|] eqn:E; [|discriminate].
      destruct (step_store e s0 E) as (Ho & He & Hc).
      simpl. rewrite <- Ho, <- He, <- Hc. now apply IH. }
  intros H. exact (G es initial s H).
Qed.

(** The loading flag is up only while a request is pending. *)
Lemma step_loading_pending (e : Event) (s s' : State) :
  s = initial \/ rendered s ->
  (loading s = true -> inflight s <> []) ->
  step rt e s = Some s' ->
  loading s' = true -> inflight s' <> [].
Proof.
  intros Hs P H. unfold step in H.
  destruct (handle rt e s) as [s1|] eqn:E; [|discriminate].
  injection H as <-.
  destruct (rerender_requests rt s1) as [Hq1 Hq0].
  destruct (match effectDeps s1 with
            | Some m => negb (Nat.eqb m (List.length (elems (orders s1))))
            | None => true
            end) eqn:Q.
  - destruct (Hq1 eq_refl) as (_ & _ & ->). intros _ A.
    now apply app_eq_nil in A as [_ A].
  - destruct (Hq0 eq_refl) as (-> & _ & ->).
    destruct (handle_frame e s E) as (_ & _ & _ & F).
    destruct e as [| |r res|v|v|v].
    + destruct F as [_ ->]. exact P.
    + destruct F as [_ ->]. intros _ A. destruct s; simpl in A.
      now apply app_eq_nil in A as [_ A].
    + destruct F as (_ & _ & ->).
      destruct (every_settlement_ends_loading_aux res (settled r s)) as [_ L].
      rewrite L. discriminate.
    + destruct F as (_ & C). destruct C as (_ & -> & _ & _ & _ & _ & _ & _ & -> & _).
      exact P.
    + destruct F as (_ & C). destruct C as (_ & -> & _ & _ & _ & _ & _ & _ & -> & _).
      exact P.
    + destruct F as (_ & C). destruct C as (_ & -> & _ & _ & _ & _ & _ & _ & -> & _).
      exact P.
Qed.

End LifecycleExtras.

Section PendingExtras.

Variable rt : Runtime.

(** X8. In every reachable state, the loading flag is up only while a
    request is pending: "Loading..." is never shown, and the Refresh button
    never disabled, with nothing to wait for. *)
Theorem loading_implies_pending (s : State) :
  reachable rt s -> loading s = true -> inflight s <> [].
Proof.
  intros [es H].
  assert (G : forall es s0 s,
             (s0 = initial \/ rendered s0) ->
             (loading s0 = true -> inflight s0 <> []) ->
             run rt es s0 = Some s ->
             loading s = true -> inflight s <> []).
  { clear es s H. induction es as [|e es IH]; intros s0 s Hs P H; simpl in H.
    - now injection H as <-.
    - destruct (step rt e s0) as [s1|] eqn:E; [|discriminate].
      apply (IH s1 s); [right; eapply step_rendered; eassumption| |assumption].
      eapply step_loading_pending; eassumption. }
  apply (G es initial s); [now left|discriminate|assumption].
Qed.

(** X9. The converse fails, by the code: the loading flag is put down by
    whichever request settles, without regard to the others.  With two
    requests pending, when one of them fails the flag is down while the
    other is still pending. *)
Theorem loading_drops_while_pending
        (r1 r2 : nat) (res : Settled Response) (err : string) (s : State) :
  reachable rt s ->
  awaiting r1 s = true -> awaiting r2 s = true -> r1 <> r2 ->
  fails res err ->
  exists s',
    step rt (Settle r1 res) s = Some s' /\
    loading s' = false /\ awaiting r2 s' = true.
Proof.
  intros R A1 A2 Hne F.
  pose proof (@reachable_mounted rt s R
                (@awaiting_mounted rt r1 s R A1)) as Rs.
  destruct (@step_failure rt r1 res err s Rs A1 F)
    as (s' & Hs & _ & _ & Hl & _ & _ & Hfl).
  exists s'. repeat split; try assumption.
  apply awaiting_In. rewrite Hfl.
  apply in_in_remove; [congruence|now apply awaiting_In].
Qed.

(** Through the button, a run is a run. *)
Lemma ui_step_step (e : Event) (s s' : State) :
  ui_step rt e s = Some s' ->
  step rt e s = Some s' /\
  (e = Refresh -> loading s = false).
Proof.
  unfold ui_step, refreshDisabled.
  destruct e; try (intros H; split; [exact H|discriminate]).
  destruct (loading s); [discriminate|]. intros H. now split.
Qed.

Lemma ui_run_run (es : list Event) (s s' : State) :
  ui_run rt es s = Some s' -> run rt es s = Some s'.
Proof.
  revert s; induction es as [|e es IH]; intros s H; simpl in *; [assumption|].
  destruct (ui_step rt e s) as [s1|] eqn:E; [|discriminate].
  apply ui_step_step in E. destruct E as [-> _]. now apply IH.
Qed.



End PendingExtras.

(** * Further properties of the view *)

Section ViewExtras.

Variable rt : Runtime.

(** A render whose two memos are current shows what they hold. *)
Lemma render_hit (s : State) (kept : Arr) (revenue : number) :
  memoFiltered s = Some (ref (orders s), kept) ->
  memoRevenue s = Some (ref kept, revenue) ->
  fst (render rt s) = mkView (elems kept) revenue.
Proof.
  unfold render, useMemo_filteredOrders, useMemo_totalRevenue.
  destruct s as [o l e se sf mt ed mf mr nr i fl c]; simpl.
  intros -> ->. repeat (rewrite Nat.eqb_refl; simpl). reflexivity.
Qed.

(** What is on screen after a render and its effect is what that render
    computed. *)
Lemma view_rerender (s : State) :
  consistent s ->
  view rt (rerender rt s) = fst (render rt s).
Proof.
  intros C.
  destruct (render_memos rt C) as (kept & Hf & _ & Hr & Hv & _).
  destruct (render_frame rt s) as (Ho & _).
  destruct (useEffect_frame (snd (render rt s)))
    as (Ho' & _ & _ & _ & _ & Hf' & Hr' & _).
  unfold view. rewrite Hv. apply render_hit; unfold rerender.
  - now rewrite Hf', Ho', Ho.
  - now rewrite Hr'.
Qed.

(** The rows after an event that brings no orders. *)
Lemma step_view_kept (e : Event) (s s' : State) :
  reachable rt s -> step rt e s = Some s' ->
  (forall r data, e <> Settle r (Fulfilled (mkResponse (Fulfilled data)))) ->
  view rt s' = view rt s.
Proof.
  intros R H Hne. unfold step in H.
  destruct (handle rt e s) as [s1|] eqn:E; [|discriminate].
  injection H as <-.
  pose proof (handle_consistent rt e
                (@reachable_rendered rt s R) E) as C1.
  destruct (handle_frame rt e s E) as (Hf & Hr & _ & F).
  rewrite (view_rerender C1).
  assert (M : e <> Mount -> orders s1 = orders s ->
              fst (render rt s1) = view rt s).
  { intros Hm Ho.
    assert (Ms : mounted s = true).
    { destruct e; try tauto; try congruence; now destruct F. }
    destruct (@reachable_mounted rt s R Ms)
      as [[_ _ _ Hm'] _ [kept Hk]].
    rewrite Hk in Hm'. destruct Hm' as [_ Hm'].
    unfold view. rewrite (@render_hit s kept _ Hk Hm').
    apply render_hit; congruence. }
  destruct e as [| |r res|v|v|v].
  - destruct F as [_ ->]. reflexivity.
  - destruct F as [_ ->]. apply M; [discriminate|now destruct s].
  - destruct F as (_ & _ & ->).
    destruct (settle_cases res) as [[data ->]|[err Fl]].
    + now elim (Hne r data).
    + apply M; [discriminate|].
      rewrite (@settle_failure res err _ Fl). now destruct s.
  - destruct F as (_ & C). apply M; [discriminate|apply C].
  - destruct F as (_ & C). apply M; [discriminate|apply C].
  - destruct F as (_ & C). apply M; [discriminate|apply C].
Qed.

(** The rows after the arrival of orders. *)
Lemma step_view_loaded (r : nat) (data : list Order) (s s' : State) :
  reachable rt s ->
  step rt (Settle r (Fulfilled (mkResponse (Fulfilled data)))) s
  = Some s' ->
  let rows := filteredOrders rt data (search s) (statusFilter s)
                             (minTotal s) in
  view rt s' = mkView rows (totalRevenue rows).
Proof.
  intros R H. unfold step in H.
  destruct (handle rt _ s) as [s1|] eqn:E; [|discriminate].
  injection H as <-.
  pose proof (handle_consistent rt _
                (@reachable_rendered rt s R) E) as C1.
  destruct (handle_frame rt _ s E) as (Hf & _ & _ & M & A & Es).
  rewrite settle_success in Es. simpl in Es.
  rewrite (view_rerender C1).
  destruct (render_memos rt C1)
    as (kept & _ & _ & _ & Hv & _ & [Hhit|[_ Hnew]]).
  - exfalso.
    destruct (@reachable_mounted rt s R M)
      as [[_ Ha _ _] _ [kept0 Hk]].
    rewrite Hf, Hk in Hhit. injection Hhit as Href _.
    rewrite Es in Href. destruct s; simpl in *. lia.
  - simpl. rewrite Hv, Hnew, Es. now destruct s.
Qed.

(** X11. When a load brings orders, the rows on screen are the pipeline
    applied to these orders with the criteria of the moment, and the
    revenue on screen is their sum. *)
Theorem view_fresh_after_load (r : nat) (data : list Order) (s s' : State) :
  reachable rt s ->
  step rt (Settle r (Fulfilled (mkResponse (Fulfilled data)))) s
  = Some s' ->
  visibleOrders (view rt s')
  = filteredOrders rt data (search s) (statusFilter s) (minTotal s)
  /\
  shownRevenue (view rt s')
  = totalRevenue (filteredOrders rt data (search s)
                                 (statusFilter s) (minTotal s)).
Proof.
  intros R H. rewrite (step_view_loaded r data R H). now split.
Qed.

(** X12. Only the arrival of orders changes what is on screen: after the
    mount, a call of [refresh], a failed load, or a change of the search
    text, of the status filter or of the minimum, the rows and the revenue
    are the ones from before. *)
Theorem view_changes_only_when_orders_arrive (e : Event) (s s' : State) :
  reachable rt s -> step rt e s = Some s' ->
  (forall r data, e <> Settle r (Fulfilled (mkResponse (Fulfilled data)))) ->
  view rt s' = view rt s.
Proof. exact (step_view_kept (e := e) (s := s) (s' := s')). Qed.

(** The rows are the pipeline on the orders in state, for some criteria. *)
Lemma run_view_of_orders (es : list Event) (s0 s : State) :
  reachable rt s0 ->
  (exists se f m,
     view rt s0
     = mkView (filteredOrders rt (elems (orders s0)) se f m)
              (totalRevenue (filteredOrders rt (elems (orders s0))
                                            se f m))) ->
  run rt es s0 = Some s ->
  exists se f m,
    view rt s
    = mkView (filteredOrders rt (elems (orders s)) se f m)
             (totalRevenue (filteredOrders rt (elems (orders s))
                                           se f m)).
Proof.
  revert s0; induction es as [|e es IH]; intros s0 R K H; simpl in H.
  - now injection H as <-.
  - destruct (step rt e s0) as [s1|] eqn:E; [|discriminate].
    apply (IH s1); [eapply reachable_step; eassumption| |assumption].
    destruct (step_store rt e s0 E) as (Ho & _).
    destruct e as [| |r res|v|v|v];
      try (rewrite (step_view_kept R E), Ho; [exact K|discriminate]).
    destruct (outcome_cases res) as [(data & -> & Eo)|(err & Fl & Eo)].
    + exists (search s0), (statusFilter s0), (minTotal s0).
      rewrite (step_view_loaded r data R E), Ho. reflexivity.
    + rewrite (step_view_kept R E), Ho.
      * simpl. rewrite Eo. exact K.
      * intros r' data' Eq. injection Eq as _ ->.
        destruct Fl as [Fl|Fl]; discriminate.
Qed.

(** X13. In every reachable state the rows on screen are the pipeline
    applied to the orders in state, for some criteria (those of the moment
    the orders arrived): every row is one of these orders, there are no
    more rows than orders counted in the heading, and the rows are
    arranged by descending timestamp. *)
Theorem rows_are_current_orders (s : State) :
  reachable rt s ->
  (exists se f m,
     visibleOrders (view rt s)
     = filteredOrders rt (elems (orders s)) se f m) /\
  (forall o, In o (visibleOrders (view rt s)) ->
             In o (elems (orders s))) /\
  List.length (visibleOrders (view rt s))
  <= List.length (elems (orders s)) /\
  StronglySorted newer_or_same (visibleOrders (view rt s)).
Proof.
  intros [es H].
  destruct (@run_view_of_orders es initial s) as (se & f & m & Hv).
  - exists []. reflexivity.
  - exists None, all, (Str ""). reflexivity.
  - exact H.
  - rewrite Hv. simpl.
    pose proof (filteredOrders_perm rt (elems (orders s)) se f m) as P.
    split; [now exists se, f, m|]. split; [|split].
    + intros o Ho. apply (Permutation_in _ P) in Ho.
      apply filter_In in Ho. tauto.
    + rewrite (Permutation_length P). apply filter_length_le.
    + apply filteredOrders_sorted.
Qed.

Lemma step_minTotalValid (e : Event) (s s' : State) :
  minTotalValid rt s -> step rt e s = Some s' -> minTotalValid rt s'.
Proof.
  intros V H. unfold step in H.
  destruct (handle rt e s) as [s1|] eqn:E; [|discriminate].
  injection H as <-.
  destruct (rerender_frame rt s1) as (_ & _ & _ & _ & _ & Hm).
  unfold minTotalValid. rewrite Hm. clear Hm.
  destruct e as [| |r res|v|v|v]; simpl in E.
  - destruct (mounted s); [discriminate|]. now injection E as <-.
  - destruct (mounted s); [|discriminate]. injection E as <-. now destruct s.
  - destruct (mounted s && awaiting r s); [|discriminate]. injection E as <-.
    destruct (settle_cases res) as [[data ->]|[err Fl]];
      [rewrite settle_success|rewrite (@settle_failure res err _ Fl)];
      now destruct s.
  - destruct (mounted s); [|discriminate]. injection E as <-. now destruct s.
  - destruct (mounted s); [|discriminate]. injection E as <-. now destruct s.
  - destruct (mounted s); [|discriminate]. injection E as <-.
    unfold handleMinTotalChange.
    destruct (String.eqb v "") eqn:Ev.
    + exists "". destruct s; simpl. split; [reflexivity|now left].
    + destruct (JsNumber.isNaN (StringToNumber rt v)) eqn:Nv; simpl.
      * exact V.
      * exists v. destruct s; simpl. split; [reflexivity|now right].
Qed.

(** X14. In every reachable state the minimum total is a text, either
    empty or one that [Number] does not turn into [NaN]: whenever the
    minimum constrains the rows, it is a number. *)
Theorem minTotal_is_empty_or_numeric (s : State) :
  reachable rt s ->
  (exists v, minTotal s = Str v /\
             (v = "" \/ JsNumber.isNaN (StringToNumber rt v) = false)) /\
  (minTotal_given (minTotal s) ->
   JsNumber.isNaN (Number rt (minTotal s)) = false).
Proof.
  intros [es H].
  assert (G : forall es s0 s, minTotalValid rt s0 ->
             run rt es s0 = Some s -> minTotalValid rt s).
  { clear es s H. induction es as [|e es IH]; intros s0 s V H; simpl in H.
    - now injection H as <-.
    - destruct (step rt e s0) as [s1|] eqn:E; [|discriminate].
      apply (IH s1); [|assumption]. eapply step_minTotalValid; eassumption. }
  assert (V : minTotalValid rt s).
  { apply (G es initial s); [|assumption]. exists "". split; [reflexivity|now left]. }
  split; [exact V|].
  destruct V as (v & -> & [->|Hv]); simpl; [congruence|now intros _].
Qed.

(** X15. A text that is not empty and that [Number] turns into [NaN] is
    refused by the minimum-total input: the state after the event is the
    state before it, minimum and rows included. *)
Theorem invalid_minTotal_is_ignored (v : string) (s : State) :
  reachable rt s -> mounted s = true ->
  v <> "" -> JsNumber.isNaN (StringToNumber rt v) = true ->
  step rt (ChangeMinTotal v) s = Some s.
Proof.
  intros R M Hv Hn. unfold step. simpl. rewrite M.
  unfold handleMinTotalChange.
  apply String.eqb_neq in Hv. rewrite Hv, Hn. simpl.
  now rewrite (rerender_fixpoint rt
                 (@reachable_mounted rt s R M)).
Qed.

End ViewExtras.

(** ** Sample runs of the further properties *)

Lemma loaded_reachable : reachable Sample.runtime Sample.loaded.
Proof.
  exists [Mount; Settle 0 (Sample.ok [Sample.alice; Sample.bob])].
  vm_compute. reflexivity.
Defined.

Lemma store_follows_settlements_witness :
  elems (orders Sample.afterFailure)
  = fold_left ordersAfter [Mount; Settle 0 (Rejected "boom")] [] /\
  error Sample.afterFailure
  = fold_left errorAfter [Mount; Settle 0 (Rejected "boom")] None /\
  console Sample.afterFailure
  = fold_left consoleAfter [Mount; Settle 0 (Rejected "boom")] [].
Proof.
  apply (@store_follows_settlements Sample.runtime
           [Mount; Settle 0 (Rejected "boom")] Sample.afterFailure).
  vm_compute. reflexivity.
Defined.

Lemma loading_implies_pending_witness : inflight Sample.firstLoad <> [].
Proof.
  apply (@loading_implies_pending Sample.runtime Sample.firstLoad).
  - exact firstLoad_reachable.
  - vm_compute. reflexivity.
Defined.

Lemma loading_drops_while_pending_witness :
  exists s',
    step Sample.runtime (Settle 0 (Rejected "boom")) Sample.twoLoads
    = Some s' /\
    loading s' = false /\ awaiting 1 s' = true.
Proof.
  apply (@loading_drops_while_pending Sample.runtime
           0 1 (Rejected "boom") "boom" Sample.twoLoads).
  - exact twoLoads_reachable.
  - vm_compute. reflexivity.
  - vm_compute. reflexivity.
  - discriminate.
  - left. reflexivity.
Defined.


Lemma view_fresh_after_load_witness :
  visibleOrders (view Sample.runtime Sample.loaded)
  = filteredOrders Sample.runtime [Sample.alice; Sample.bob]
                   (search Sample.firstLoad) (statusFilter Sample.firstLoad)
                   (minTotal Sample.firstLoad)
  /\
  shownRevenue (view Sample.runtime Sample.loaded)
  = totalRevenue
      (filteredOrders Sample.runtime [Sample.alice; Sample.bob]
                      (search Sample.firstLoad) (statusFilter Sample.firstLoad)
                      (minTotal Sample.firstLoad)).
Proof.
  apply (@view_fresh_after_load Sample.runtime
           0 [Sample.alice; Sample.bob] Sample.firstLoad Sample.loaded).
  - exact firstLoad_reachable.
  - vm_compute. reflexivity.
Defined.

Lemma view_changes_only_when_orders_arrive_witness :
  view Sample.runtime
       (rerender Sample.runtime
                 (setStatusFilter (only paid) Sample.loaded))
  = view Sample.runtime Sample.loaded.
Proof.
  apply (@view_changes_only_when_orders_arrive Sample.runtime
           (ChangeStatus (only paid)) Sample.loaded).
  - exact loaded_reachable.
  - vm_compute. reflexivity.
  - discriminate.
Defined.

Lemma rows_are_current_orders_witness :
  (exists se f m,
     visibleOrders (view Sample.runtime Sample.loaded)
     = filteredOrders Sample.runtime (elems (orders Sample.loaded))
                      se f m) /\
  (forall o, In o (visibleOrders (view Sample.runtime Sample.loaded)) ->
             In o (elems (orders Sample.loaded))) /\
  List.length (visibleOrders (view Sample.runtime Sample.loaded))
  <= List.length (elems (orders Sample.loaded)) /\
  StronglySorted newer_or_same
                 (visibleOrders (view Sample.runtime Sample.loaded)).
Proof.
  apply (@rows_are_current_orders Sample.runtime Sample.loaded).
  exact loaded_reachable.
Defined.

Lemma minTotal_is_empty_or_numeric_witness :
  (exists v, minTotal Sample.loaded = Str v /\
             (v = "" \/ JsNumber.isNaN (StringToNumber Sample.runtime v) = false)) /\
  (minTotal_given (minTotal Sample.loaded) ->
   JsNumber.isNaN (Number Sample.runtime (minTotal Sample.loaded))
   = false).
Proof.
  apply (@minTotal_is_empty_or_numeric Sample.runtime Sample.loaded).
  exact loaded_reachable.
Defined.

Lemma invalid_minTotal_is_ignored_witness :
  step Sample.runtime (ChangeMinTotal "abc") Sample.loaded
  = Some Sample.loaded.
Proof.
  apply (@invalid_minTotal_is_ignored Sample.runtime "abc" Sample.loaded).
  - exact loaded_reachable.
  - vm_compute. reflexivity.
  - discriminate.
  - vm_compute. reflexivity.
Defined.
